(** * filter_responses.py: a shallow embedding and its verified properties

    The module reads an HTTP access log, keeps the last path element of
    every request whose extension and response code match the configured
    filters, writes them to a second file and removes duplicate lines from
    a text file.

    Conventions of the embedding
    - Python [str] values are [string]s of 8-bit characters. [str.lower]
      is modelled on ASCII text, where it only moves the letters A-Z; what
      is stated about the lower-casing itself carries the hypothesis that
      the strings are ASCII ([Text.is_ascii]).
    - A raised exception is a value of [Py.result]; statements are chained
      with the bind of that error monad.
    - The file system is a finite map from file names to file contents.
      Files are opened in text mode with the default [newline=None] on a
      POSIX platform: reading translates "\r\n" and "\r" to "\n", writing
      stores the text unchanged.
    - The iteration order of a Python [set] is not fixed by the language;
      it is an explicit argument of [TextFileFilter.remove_duplicates]. *)

From Stdlib Require Import ZArith Ascii String List Lia.
From stdpp Require Import gmap strings list fin_maps sorting.

Open Scope string_scope.

(** ** The Python builtins the module relies on *)

Module Py.

Inductive exn : Set :=
| IndexError
| FileNotFoundError.

Inductive result (A : Type) : Type :=
| Ok (a : A)
| Raise (e : exn).
Arguments Ok {A} a.
Arguments Raise {A} e.

#[global] Instance result_ret : MRet result := fun A a => Ok a.
#[global] Instance result_bind : MBind result := fun A B f m =>
  match m with
  | Ok a => f a
  | Raise e => Raise e
  end.

(** The two values [_last_path_element_passes_extension_filter] can
    return: [True], or [None] when the function falls off its end. *)
Inductive object : Set :=
| PyTrue
| PyNone.

(** Truth value testing, as done by [if]. *)
Definition truthy (o : object) : bool :=
  match o with
  | PyTrue => true
  | PyNone => false
  end.

Definition LF : ascii := "010"%char.
Definition CR : ascii := "013"%char.
Definition DQUOTE : ascii := "034"%char.
Definition nl : string := String LF "".

(** [len(l)] *)
Definition len {A} (l : list A) : Z := Z.of_nat (length l).

(** [l[i]]: a negative index counts from the end; an index outside
    [-len(l) .. len(l)-1] raises [IndexError]. *)
Definition getitem {A} (l : list A) (i : Z) : result A :=
  let j := (if i <? 0 then i + len l else i)%Z in
  if (j <? 0)%Z then Raise IndexError
  else match l !! Z.to_nat j with
       | Some x => Ok x
       | None => Raise IndexError
       end.

(** [str.lower] on ASCII text: the letters A-Z move to a-z, every other
    ASCII character stays. Python also lower-cases letters outside ASCII;
    here a character with a code above 127 is left as it is, so [lower] is
    [str.lower] for ASCII strings only. *)
Definition lower_char (c : ascii) : ascii :=
  let n := nat_of_ascii c in
  if (65 <=? n)%nat && (n <=? 90)%nat then ascii_of_nat (n + 32) else c.

Fixpoint lower (s : string) : string :=
  match s with
  | "" => ""
  | String c s' => String (lower_char c) (lower s')
  end.

(** [s.endswith(suffix)]: [s] is [suffix], or its tail ends with it. *)
Fixpoint endswith (s suffix : string) : bool :=
  if String.eqb s suffix then true
  else match s with
       | "" => false
       | String _ s' => endswith s' suffix
       end.

(** Cutting a string at every character that satisfies [p]: the pieces
    between the cuts, empty ones included, so the result is never the
    empty list. *)
Fixpoint split_by (p : ascii -> bool) (s : string) : list string :=
  match s with
  | "" => [""]
  | String c s' =>
      if p c then "" :: split_by p s'
      else match split_by p s' with
           | w :: ws => String c w :: ws
           | [] => [String c ""]
           end
  end.

(** [s.split(sep)] for a separator of one character, the only form the
    module uses: a space, a double quote and a slash. *)
Definition split (sep : ascii) (s : string) : list string :=
  split_by (Ascii.eqb sep) s.

(** [s.split()] without separator: runs of whitespace separate, and no
    empty string is returned. *)
Definition split_whitespace (s : string) : list string :=
  List.filter (fun w => negb (String.eqb w "")) (split_by Ascii.is_space s).

(** Text-mode reading with universal newlines: "\r\n" and a lone "\r"
    both arrive as "\n". *)
Fixpoint universal_newlines (s : string) : string :=
  match s with
  | "" => ""
  | String c s' =>
      if Ascii.eqb c CR then
        match s' with
        | String c' _ =>
            if Ascii.eqb c' LF then universal_newlines s'
            else String LF (universal_newlines s')
        | "" => nl
        end
      else String c (universal_newlines s')
  end.

(** The lines of a text: each one runs up to and including its "\n";
    only the last line can lack it, and an empty text has no line. *)
Fixpoint lines_of_text (s : string) : list string :=
  match s with
  | "" => []
  | String c s' =>
      if Ascii.eqb c LF then nl :: lines_of_text s'
      else match lines_of_text s' with
           | l :: ls => String c l :: ls
           | [] => [String c ""]
           end
  end.

(** What iterating over a file opened with [open(name, 'r')], or its
    [readlines()], yields for a file with the given content. *)
Definition readlines (content : string) : list string :=
  lines_of_text (universal_newlines content).

(** Successive [file.write(s)] calls append to what was written. *)
Definition write_all (written : string) (chunks : list string) : string :=
  fold_left String.append chunks written.

End Py.

Import Py.

(** ** class ResponseFilter *)

Module ResponseFilter.

Record t : Set := {
  _filename : string;
  _extension_filter : string;
  _code_filter : string;
  _filtered_elements_filename_start : string;
  filtered_elements_filename : string
}.

Definition __init__ (filename extension_filter response_code_filter : string) : t :=
  let start := "gifs_" in
  {| _filename := filename;
     _extension_filter := extension_filter;
     _code_filter := response_code_filter;
     _filtered_elements_filename_start := start;
     filtered_elements_filename := start +:+ filename |}.

Definition _get_last_path_element_from_log (line : string) : result string :=
  request_param ← getitem (split DQUOTE line) 1;
  file_path ← getitem (split " " request_param) 1;
  let path_elements := split "/" file_path in
  getitem path_elements (len path_elements - 1).

Definition _last_path_element_passes_extension_filter
    (self : t) (last_path_element : string) : object :=
  if endswith (lower last_path_element) (_extension_filter self)
  then PyTrue
  else PyNone.

Definition _get_response_code_from_log (line : string) : result string :=
  let response_elements := split " " line in
  getitem response_elements (len response_elements - 2).

Definition _response_code_passes_filter (self : t) (response_code : string) : bool :=
  String.eqb response_code (_code_filter self).

(** The body of the [for] loop of [create_new_file_with_filtered_elements].
    [written] is what the output file holds so far; an exception leaves it
    as it is and ends the loop. *)
Definition loop_body (self : t) (line written : string) : string * result unit :=
  match _get_last_path_element_from_log line with
  | Raise e => (written, Raise e)
  | Ok last_path_element =>
      if truthy (_last_path_element_passes_extension_filter self last_path_element)
      then
        match _get_response_code_from_log line with
        | Raise e => (written, Raise e)
        | Ok response_code =>
            if _response_code_passes_filter self response_code
            then (written +:+ (last_path_element +:+ nl), Ok ())
            else (written, Ok ())
        end
      else (written, Ok ())
  end.

Fixpoint for_line_in (self : t) (input_file : list string) (written : string)
    : string * result unit :=
  match input_file with
  | [] => (written, Ok ())
  | line :: rest =>
      match loop_body self line written with
      | (written', Ok _) => for_line_in self rest written'
      | (written', Raise e) => (written', Raise e)
      end
  end.

(** Opening the source fails when it does not exist, before the output is
    touched. Opening the output with mode w creates or empties it; both
    [with] blocks close their file on every exit, so what was written
    before an exception stays in the output file. [__init__] makes the two
    names differ. *)
Definition create_new_file_with_filtered_elements
    (self : t) (fs : gmap string string) : gmap string string * result unit :=
  match fs !! _filename self with
  | None => (fs, Raise FileNotFoundError)
  | Some content =>
      let (written, outcome) := for_line_in self (readlines content) "" in
      (<[filtered_elements_filename self := written]> fs, outcome)
  end.

End ResponseFilter.

(** ** class TextFileFilter *)

Module TextFileFilter.

(** An order in which a [set] may hand out its elements: each element
    once, in any order. *)
Definition set_iteration (order : gset string -> list string) : Prop :=
  forall s : gset string, order s ≡ₚ elements s.

(** [order] is the order in which this run iterates over its set. *)
Definition remove_duplicates (order : gset string -> list string)
    (filename : string) (fs : gmap string string) : gmap string string * result unit :=
  match fs !! filename with
  | None => (fs, Raise FileNotFoundError)
  | Some content =>
      let filtered_lines : gset string := list_to_set (readlines content) in
      (<[filename := write_all "" (order filtered_lines)]> fs, Ok ())
  end.

(** Two iteration orders, to run the function on concrete files. *)
Definition ascending (s : gset string) : list string :=
  merge_sort String.le (elements s).

Definition descending (s : gset string) : list string :=
  reverse (ascending s).

End TextFileFilter.

Import ResponseFilter TextFileFilter.

(** ** Texts, lines and tokens *)

Module Text.

(** The text of a file holding the given lines, in order. *)
Definition join (lines : list string) : string :=
  foldr String.append "" lines.

(** No character of [s] satisfies [p]. *)
Fixpoint free_of (p : ascii -> bool) (s : string) : bool :=
  match s with
  | "" => true
  | String c s' => negb (p c) && free_of p s'
  end.

(** ASCII text: every character has a code below 128. *)
Definition is_ascii (s : string) : bool :=
  free_of (fun c => (128 <=? nat_of_ascii c)%nat) s.

(** The text before the first character that satisfies [p]. *)
Fixpoint up_to (p : ascii -> bool) (s : string) : string :=
  match s with
  | "" => ""
  | String c s' => if p c then "" else String c (up_to p s')
  end.

(** The text after the first character that satisfies [p], if there is one. *)
Fixpoint after_first (p : ascii -> bool) (s : string) : option string :=
  match s with
  | "" => None
  | String c s' => if p c then Some s' else after_first p s'
  end.

(** A token: not empty and without whitespace. *)
Definition token (s : string) : Prop :=
  s <> "" /\ free_of Ascii.is_space s = true.

(** A line that ends with its newline. *)
Definition terminated (line : string) : Prop :=
  endswith line nl = true.

(** A complete line: a text without newline, followed by the newline. *)
Definition complete_line (line : string) : Prop :=
  exists body, line = body +:+ nl /\ free_of (Ascii.eqb LF) body = true.

(** A last line that lacks its newline. *)
Definition unterminated_line (line : string) : Prop :=
  line <> "" /\ free_of (Ascii.eqb LF) line = true.

End Text.

Import Text.

(** ** The specification's wording of the operations *)

Module Spec.

(** Split the line on the double quote, take the element at index 1,
    split that on whitespace and take the token at index 1, split the path
    on the slash and return the final component. *)
Definition extractLastPathElement (line : string) : option string :=
  request ← split DQUOTE line !! 1;
  path ← split_whitespace request !! 1;
  last (split "/" path).

(** Split the whole line on whitespace; return the second-to-last token. *)
Definition extractResponseCode (line : string) : option string :=
  match reverse (split_whitespace line) with
  | _ :: code :: _ => Some code
  | _ => None
  end.

(** True iff the lower-cased path element ends with the lower-cased
    extension filter string. *)
Definition passesExtensionFilter (extension_filter path_element : string) : bool :=
  endswith (lower path_element) (lower extension_filter).

(** The shape of a log line in the common log format: a request field
    between the first two double quotes, holding the method, a space, the
    path, and the rest (empty, or a space and the protocol). *)
Definition request_line (method path rest : string) : string :=
  method +:+ String " " (path +:+ rest).

Definition log_line (before request after : string) : string :=
  before +:+ String DQUOTE (request +:+ String DQUOTE after).

(** The quoted request field: what follows the first double quote, up to
    the next one. *)
Definition request_field (line : string) : option string :=
  up_to (Ascii.eqb DQUOTE) <$> after_first (Ascii.eqb DQUOTE) line.

(** The lines on which the extraction raises: a line without double
    quote, and a line whose request field has no space. A request field
    with a space and nothing after it, as in "GET ", is not among them:
    its path is the empty string. *)
Definition malformed (line : string) : bool :=
  match request_field line with
  | None => true
  | Some request => free_of (Ascii.eqb " ") request
  end.

(** The path element of a line that passes both filters. *)
Definition passing_element (self : ResponseFilter.t) (line : string) : option string :=
  match _get_last_path_element_from_log line, _get_response_code_from_log line with
  | Ok element, Ok code =>
      if truthy (_last_path_element_passes_extension_filter self element)
         && _response_code_passes_filter self code
      then Some element
      else None
  | _, _ => None
  end.

(** The path element of a line whose response code passes. *)
Definition element_with_code (code_filter line : string) : option string :=
  match _get_last_path_element_from_log line, _get_response_code_from_log line with
  | Ok element, Ok code => if String.eqb code code_filter then Some element else None
  | _, _ => None
  end.

(** The output file: each passing element followed by a newline, in the
    order of the source lines. *)
Definition filtered_output (self : ResponseFilter.t) (lines : list string) : string :=
  join ((fun element => element +:+ nl) <$> omap (passing_element self) lines).

End Spec.

Import Spec.

(** ** The files of the module's own tests *)

Definition quoted (s : string) : string :=
  String DQUOTE (s +:+ String DQUOTE "").

Definition liftoff_line : string :=
  "burger.letters.com - - [01/Jul/1995:00:00:11 -0400] "
  +:+ quoted "GET /shuttle/countdown/liftoff.html HTTP/1.0" +:+ " 304 0".

Definition indent : string := "                ".

Definition sample_test_input_file : string :=
  ("unicomp6.unicomp.net - - [01/Jul/1995:00:00:06 -0400] " +:+ quoted "GET /shuttle/countdown/ HTTP/1.0" +:+ " 200 3985" +:+ nl) +:+
  (indent +:+ liftoff_line +:+ nl) +:+
  (indent +:+ "burger.letters.com - - [01/Jul/1995:00:00:12 -0400] " +:+ quoted "GET /images/NASA-logosmall.gif HTTP/1.0" +:+ " 304 0" +:+ nl) +:+
  (indent +:+ "burger.letters.com - - [01/Jul/1995:00:00:12 -0400] " +:+ quoted "GET /shuttle/countdown/video/livevideo.GIF HTTP/1.0" +:+ " 200 0" +:+ nl) +:+
  (indent +:+ "burger.letters.com - - [01/Jul/1995:00:00:12 -0400] " +:+ quoted "GET /shuttle/countdown/video/livevideo.GIF HTTP/1.0" +:+ " 200 0" +:+ nl) +:+
  (indent +:+ "d104.aa.net - - [01/Jul/1995:00:00:13 -0400] " +:+ quoted "GET /shuttle/countdown/ HTTP/1.0" +:+ " 200 3985" +:+ nl) +:+
  (indent +:+ "unicomp6.unicomp.net - - [01/Jul/1995:00:00:14 -0400] " +:+ quoted "GET /shuttle/countdown/count.gif HTTP/1.0" +:+ " 200 40310" +:+ nl) +:+
  (indent +:+ "unicomp6.unicomp.net - - [01/Jul/1995:00:00:14 -0400] " +:+ quoted "GET /images/NASA-logosmall.gif HTTP/1.0" +:+ " 200 786" +:+ nl) +:+
  (indent +:+ "unicomp6.unicomp.net - - [01/Jul/1995:00:00:14 -0400] " +:+ quoted "GET /images/KSC-logosmall.gif HTTP/1.0" +:+ " 200 1204" +:+ nl) +:+
  (indent +:+ "d104.aa.net - - [01/Jul/1995:00:00:15 -0400] " +:+ quoted "GET /shuttle/countdown/count.gif HTTP/1.0" +:+ " 200 40310" +:+ nl) +:+
  (indent +:+ "d104.aa.net - - [01/Jul/1995:00:00:15 -0400] " +:+ quoted "GET /images/NASA-logosmall.gif HTTP/1.0" +:+ " 200 786" +:+ nl) +:+
  (indent +:+ "d104.aa.net - - [01/Jul/1995:00:00:15 -0400] " +:+ quoted "GET /images/NASA-logosmall.gif HTTP/1.0" +:+ " 200 786" +:+ nl) +:+
  (indent +:+ "d104.aa.net - - [01/Jul/1995:00:00:15 -0400] " +:+ quoted "GET /images/smogo.gif HTTP/1.0" +:+ " 200 0").

Definition res_filter : ResponseFilter.t :=
  __init__ "sample_test_input_file.txt" ".gif" "200".

Definition test_file : string :=
  join ((fun l => l +:+ nl) <$>
    ["livevideo.GIF"; "livevideo.GIF"; "count.gif"; "NASA-logosmall.gif";
     "KSC-logosmall.gif"; "count.gif"; "count.GIF"; "NASA-logosmall.gif";
     "NASA-logosmall.gif"; "sahara.gif"]).

(** A log whose second line has no quoted request field. *)
Definition broken_log : string :=
  ("d104.aa.net - - [01/Jul/1995:00:00:15 -0400] " +:+ quoted "GET /images/smogo.gif HTTP/1.0" +:+ " 200 0" +:+ nl) +:+
  ("d104.aa.net - - [01/Jul/1995:00:00:16 -0400] - 400 0" +:+ nl) +:+
  ("d104.aa.net - - [01/Jul/1995:00:00:17 -0400] " +:+ quoted "GET /images/count.gif HTTP/1.0" +:+ " 200 0" +:+ nl).

(** A log whose second line has a request field without a path token:
    the method, a space, and nothing more. *)
Definition pathless_log : string :=
  ("d104.aa.net - - [01/Jul/1995:00:00:15 -0400] " +:+ quoted "GET /images/smogo.gif HTTP/1.0" +:+ " 200 0" +:+ nl) +:+
  ("h - - [t] " +:+ quoted "GET " +:+ " 200 0" +:+ nl) +:+
  ("d104.aa.net - - [01/Jul/1995:00:00:17 -0400] " +:+ quoted "GET /images/count.gif HTTP/1.0" +:+ " 200 0" +:+ nl).

(** A log with a request for a directory and a request that was not
    answered with 200. *)
Definition directory_log : string :=
  ("unicomp6.unicomp.net - - [01/Jul/1995:00:00:06 -0400] " +:+ quoted "GET /shuttle/countdown/ HTTP/1.0" +:+ " 200 3985" +:+ nl) +:+
  (liftoff_line +:+ nl) +:+
  ("d104.aa.net - - [01/Jul/1995:00:00:15 -0400] " +:+ quoted "GET /images/smogo.gif HTTP/1.0" +:+ " 200 0" +:+ nl).

(** * Properties *)

(** ** The tests of the module, run on the embedding *)

Example test_get_last_path_element_from_log :
  _get_last_path_element_from_log liftoff_line = Ok "liftoff.html".
Proof. reflexivity. Qed.

Example test_get_response_code :
  _get_response_code_from_log liftoff_line = Ok "304".
Proof. reflexivity. Qed.

Example test_response_code_filter :
  _response_code_passes_filter res_filter "200" = true
  /\ _response_code_passes_filter res_filter "304" = false.
Proof. split; reflexivity. Qed.

Example test_last_path_element_filter :
  _last_path_element_passes_extension_filter res_filter "funny_picture.gif" = PyTrue
  /\ _last_path_element_passes_extension_filter res_filter "funny_picture.GIF" = PyTrue
  /\ _last_path_element_passes_extension_filter res_filter "/funny/directory/" = PyNone.
Proof. repeat split; reflexivity. Qed.

Example test_created_file_starts_with_gifs :
  _filtered_elements_filename_start res_filter = "gifs_"
  /\ filtered_elements_filename res_filter = "gifs_" +:+ _filename res_filter.
Proof. split; reflexivity. Qed.

Example test_7_filenames_written_from_sample :
  exists written,
    fst (create_new_file_with_filtered_elements res_filter
           {[ "sample_test_input_file.txt" := sample_test_input_file ]})
      !! "gifs_sample_test_input_file.txt" = Some written
    /\ length (readlines written) = 9.
Proof. eexists. split; vm_compute; reflexivity. Qed.

Example test_file_filter_removes_duplicates :
  exists final_text,
    fst (remove_duplicates ascending "test_file.txt" {[ "test_file.txt" := test_file ]})
      !! "test_file.txt" = Some final_text
    /\ merge_sort String.le (readlines final_text) =
       merge_sort String.le ((fun l => l +:+ nl) <$>
           ["livevideo.GIF"; "KSC-logosmall.gif"; "count.gif"; "count.GIF";
            "NASA-logosmall.gif"; "sahara.gif"]).
Proof. eexists. split; vm_compute; reflexivity. Qed.

(** An empty source gives an empty output file, and removing duplicates
    from an empty file leaves it empty. *)
Example empty_source :
  create_new_file_with_filtered_elements (__init__ "empty.log" ".gif" "200")
    {[ "empty.log" := "" ]}
  = (<["gifs_empty.log" := ""]> {[ "empty.log" := "" ]}, Ok ())
  /\ remove_duplicates ascending "empty.log" {[ "empty.log" := "" ]}
     = (<["empty.log" := ""]> {[ "empty.log" := "" ]}, Ok ()).
Proof. split; reflexivity. Qed.

(** A source that does not exist: the run raises and creates nothing. *)
Example missing_source :
  create_new_file_with_filtered_elements (__init__ "missing.log" ".gif" "200") ∅
  = (∅, Raise FileNotFoundError).
Proof. reflexivity. Qed.

(** ** Strings *)

Section strings.
Implicit Types (s t u : string) (c : ascii) (p : ascii -> bool).

Lemma append_cons c s t : String c s +:+ t = String c (s +:+ t).
Proof. reflexivity. Qed.

Lemma append_nil_l s : "" +:+ s = s.
Proof. reflexivity. Qed.

Lemma append_nil_r s : s +:+ "" = s.
Proof. induction s as [|c s IH]; [reflexivity|]. by rewrite append_cons, IH. Qed.

Lemma append_assoc s t u : (s +:+ t) +:+ u = s +:+ (t +:+ u).
Proof. induction s as [|c s IH]; [reflexivity|]. by rewrite !append_cons, IH. Qed.

Lemma append_eq_nil s t : s +:+ t = "" -> s = "" /\ t = "".
Proof. destruct s; [by rewrite append_nil_l|by rewrite append_cons]. Qed.

Lemma free_of_cons p c s : free_of p (String c s) = negb (p c) && free_of p s.
Proof. reflexivity. Qed.

Lemma free_of_append p s t : free_of p (s +:+ t) = free_of p s && free_of p t.
Proof.
  induction s as [|c s IH]; [reflexivity|].
  rewrite append_cons. simpl. by rewrite IH, andb_assoc.
Qed.

Lemma free_of_weaken p p' s :
  (forall c, p' c = true -> p c = true) -> free_of p s = true -> free_of p' s = true.
Proof.
  intros Hp. induction s as [|c s IH]; [done|]. simpl.
  intros [Hc Hs]%andb_prop. rewrite IH, andb_true_r by done.
  destruct (p' c) eqn:E; [|done]. by rewrite (Hp c E) in Hc.
Qed.

Lemma free_of_join p (l : list string) :
  free_of p (join l) = true <-> Forall (fun s => free_of p s = true) l.
Proof.
  induction l as [|s l IH]; simpl.
  - split; [constructor|done].
  - rewrite free_of_append, andb_true_iff, Forall_cons. by rewrite IH.
Qed.

Lemma join_app (l k : list string) : join (l ++ k) = join l +:+ join k.
Proof.
  induction l as [|s l IH]; [reflexivity|]. simpl. by rewrite IH, append_assoc.
Qed.

Lemma write_all_join (l : list string) s : write_all s l = s +:+ join l.
Proof.
  revert s. induction l as [|x l IH]; intros s; simpl.
  - by rewrite append_nil_r.
  - unfold write_all in *. simpl. by rewrite IH, append_assoc.
Qed.

(** *** endswith *)

Lemma endswith_unfold s t :
  endswith s t =
    if String.eqb s t then true
    else match s with "" => false | String _ s' => endswith s' t end.
Proof. by destruct s. Qed.

Lemma endswith_nil s : endswith s "" = true.
Proof.
  induction s as [|c s IH]; [reflexivity|]. by rewrite endswith_unfold, IH.
Qed.

Lemma endswith_iff s t : endswith s t = true <-> exists u, s = u +:+ t.
Proof.
  induction s as [|c s IH]; rewrite endswith_unfold.
  - destruct (String.eqb_spec "" t) as [<-|Hne].
    + split; [by exists ""|done].
    + split; [done|]. intros [u Hu]. symmetry in Hu.
      by apply append_eq_nil in Hu as [_ ->].
  - destruct (String.eqb_spec (String c s) t) as [<-|Hne].
    + split; [by exists ""|done].
    + rewrite IH. split.
      * intros [u ->]. by exists (String c u).
      * intros [[|c' u] Hu]; [by rewrite append_nil_l in Hu|].
        rewrite append_cons in Hu. injection Hu as _ ->. by exists u.
Qed.

(** *** lower *)

Lemma lower_char_idemp c : lower_char (lower_char c) = lower_char c.
Proof. by destruct c as [[] [] [] [] [] [] [] []]. Qed.

Lemma lower_append s t : lower (s +:+ t) = lower s +:+ lower t.
Proof.
  induction s as [|c s IH]; [reflexivity|].
  rewrite append_cons. simpl. by rewrite IH.
Qed.

Lemma lower_idemp s : lower (lower s) = lower s.
Proof.
  induction s as [|c s IH]; [reflexivity|]. simpl. by rewrite lower_char_idemp, IH.
Qed.

Lemma lower_length s : String.length (lower s) = String.length s.
Proof. induction s as [|c s IH]; [reflexivity|]. simpl. by rewrite IH. Qed.

Lemma append_inv_length s s' t t' :
  String.length s = String.length s' -> s +:+ t = s' +:+ t' -> t = t'.
Proof.
  revert s'. induction s as [|c s IH]; intros [|c' s']; simpl; try done.
  rewrite !append_cons. intros [= Hl] [= _ H]. eauto.
Qed.

End strings.

(** ** The extension filter *)

Section extension_filter.
Variables filename extension_filter response_code_filter : string.
Let self := __init__ filename extension_filter response_code_filter.

Lemma passes_extension_filter_iff element :
  truthy (_last_path_element_passes_extension_filter self element) = true
  <-> exists u, lower element = u +:+ extension_filter.
Proof.
  unfold _last_path_element_passes_extension_filter. simpl.
  rewrite <- endswith_iff. by destruct (endswith _ _).
Qed.

(** A suffix of a lower-cased string is itself in lower case. *)
Lemma lower_suffix s u t : lower s = u +:+ t -> lower t = t.
Proof.
  intros H. pose proof (lower_idemp s) as Hs.
  rewrite H, lower_append in Hs.
  eapply append_inv_length, Hs. apply lower_length.
Qed.

End extension_filter.

(** C1, as the code has it, for ASCII elements and filters: the element
    is lower-cased, the configured filter is compared as it was given. The
    predicate accepts an element iff the lower-cased element ends with the
    filter string itself; for a filter in lower case this is the
    case-insensitive suffix match of the specification
    ('funny_picture.GIF' passes '.gif', '/funny/directory/' does not), and
    a filter with an upper-case letter accepts nothing. *)
Theorem extension_filter_lowers_the_element_only
    (filename extension_filter response_code_filter element : string) :
  is_ascii element = true ->
  is_ascii extension_filter = true ->
  let self := __init__ filename extension_filter response_code_filter in
  let accepts e := truthy (_last_path_element_passes_extension_filter self e) in
  (accepts element = true <-> exists u, lower element = u +:+ extension_filter)
  /\ (lower extension_filter = extension_filter ->
      accepts element = passesExtensionFilter extension_filter element)
  /\ (lower extension_filter <> extension_filter -> accepts element = false)
  /\ truthy (_last_path_element_passes_extension_filter
               (__init__ filename ".gif" response_code_filter) "funny_picture.GIF") = true
  /\ truthy (_last_path_element_passes_extension_filter
               (__init__ filename ".gif" response_code_filter) "/funny/directory/") = false.
Proof.
  intros _ _ self accepts. split; [apply passes_extension_filter_iff|].
  split; [|split; [|by split]].
  - intros Hlow. unfold accepts, passesExtensionFilter,
      _last_path_element_passes_extension_filter. simpl.
    rewrite Hlow. by destruct (endswith _ _).
  - intros Hup. destruct (accepts element) eqn:E; [|done].
    apply passes_extension_filter_iff in E as [u Hu].
    by apply lower_suffix in Hu.
Qed.

Lemma extension_filter_lowers_the_element_only_witness :
  is_ascii "count.GIF" = true
  /\ is_ascii ".gif" = true
  /\ lower ".gif" = ".gif"
  /\ truthy (_last_path_element_passes_extension_filter
               (__init__ "access.log" ".gif" "200") "count.GIF")
     = passesExtensionFilter ".gif" "count.GIF".
Proof.
  split; [reflexivity|]. split; [reflexivity|]. split; [reflexivity|].
  exact (proj1 (proj2 (extension_filter_lowers_the_element_only
                         "access.log" ".gif" "200" "count.GIF" eq_refl eq_refl))
           eq_refl).
Defined.

(** C1 as stated fails: the filter '.GIF' is not lower-cased, so the
    element 'funny_picture.gif' does not pass it. *)
Lemma upper_case_extension_filter_rejects :
  passesExtensionFilter ".GIF" "funny_picture.gif" = true
  /\ _last_path_element_passes_extension_filter
       (__init__ "sample_test_input_file.txt" ".GIF" "200") "funny_picture.gif" = PyNone.
Proof. split; reflexivity. Qed.

(** ** Splitting *)

Section splitting.
Implicit Types (s t u : string) (c : ascii) (p : ascii -> bool).

Lemma split_by_unfold p s :
  split_by p s =
    up_to p s :: match after_first p s with
                 | Some rest => split_by p rest
                 | None => []
                 end.
Proof.
  induction s as [|c s IH]; [reflexivity|]. simpl.
  destruct (p c); [reflexivity|]. by rewrite IH.
Qed.

Lemma split_by_free p s : free_of p s = true -> split_by p s = [s].
Proof.
  induction s as [|c s IH]; [reflexivity|]. simpl.
  destruct (p c); [done|]. intros H. by rewrite IH.
Qed.

Lemma split_by_sep p s c t :
  p c = true -> split_by p (s +:+ String c t) = (split_by p s ++ split_by p t)%list.
Proof.
  intros Hc. induction s as [|c' s IH].
  - rewrite append_nil_l. simpl. by rewrite Hc.
  - rewrite append_cons. simpl. destruct (p c'); [by rewrite IH|].
    rewrite IH. rewrite (split_by_unfold p s). reflexivity.
Qed.

Lemma after_first_None p s : after_first p s = None <-> free_of p s = true.
Proof.
  induction s as [|c s IH]; [done|]. simpl. destruct (p c); [done|]. by rewrite IH.
Qed.

(** *** Indexing *)

Lemma getitem_nat {A} (l : list A) (n : nat) :
  getitem l (Z.of_nat n) =
    match l !! n with Some x => Ok x | None => Raise IndexError end.
Proof.
  unfold getitem. destruct (Z.ltb_spec (Z.of_nat n) 0); [lia|].
  destruct (Z.ltb_spec (Z.of_nat n) 0); [lia|]. by rewrite Nat2Z.id.
Qed.

Lemma getitem_last {A} (l : list A) x :
  getitem (l ++ [x])%list (len (l ++ [x])%list - 1) = Ok x.
Proof.
  unfold len. rewrite length_app. simpl.
  replace (Z.of_nat (length l + 1) - 1)%Z with (Z.of_nat (length l)) by lia.
  by rewrite getitem_nat, list_lookup_middle.
Qed.

Lemma getitem_second_to_last {A} (l : list A) x y :
  getitem (l ++ [x; y])%list (len (l ++ [x; y])%list - 2) = Ok x.
Proof.
  unfold len. rewrite length_app. simpl.
  replace (Z.of_nat (length l + 2) - 2)%Z with (Z.of_nat (length l)) by lia.
  by rewrite getitem_nat, list_lookup_middle.
Qed.

Lemma getitem_singleton {A} (x : A) : getitem [x] (len [x] - 2) = Ok x.
Proof. reflexivity. Qed.

Lemma split_by_snoc p s : exists l w, split_by p s = (l ++ [w])%list.
Proof.
  destruct (split_by p s) as [|w l] eqn:E using rev_ind.
  - by rewrite split_by_unfold in E.
  - eauto.
Qed.

End splitting.

(** ** Extracting the last path element *)

Lemma eqb_space_is_space c : Ascii.eqb " " c = true -> Ascii.is_space c = true.
Proof. by intros <-%Ascii.eqb_eq. Qed.

Lemma token_no_space s : token s -> free_of (Ascii.eqb " ") s = true.
Proof. intros [_ H]. eapply free_of_weaken, H. apply eqb_space_is_space. Qed.

Lemma token_nonempty s : token s -> negb (String.eqb s "") = true.
Proof. intros [H _]. by apply negb_true_iff, String.eqb_neq. Qed.

Section well_formed_line.
Variables before method directory element rest after : string.
Let path := directory +:+ element.
Let request := request_line method path rest.
Let line := log_line before request after.
Hypothesis before_no_quote : free_of (Ascii.eqb DQUOTE) before = true.
Hypothesis request_no_quote : free_of (Ascii.eqb DQUOTE) request = true.
Hypothesis method_token : token method.
Hypothesis path_token : token path.
Hypothesis rest_shape : rest = "" \/ exists r, rest = String " " r.
Hypothesis directory_shape : directory = "" \/ exists d, directory = d +:+ "/".
Hypothesis element_no_slash : free_of (Ascii.eqb "/") element = true.

Lemma split_quote_line :
  exists l, split DQUOTE line = before :: request :: l.
Proof.
  unfold split, line, log_line.
  rewrite split_by_sep by done. rewrite split_by_sep by done.
  rewrite !split_by_free by done. by eexists.
Qed.

Lemma split_space_request :
  exists l, split " " request = method :: path :: l.
Proof.
  unfold split, request, request_line.
  rewrite split_by_sep by done.
  rewrite (split_by_free _ method) by by apply token_no_space.
  destruct rest_shape as [->|[r ->]].
  - rewrite append_nil_r, split_by_free by by apply token_no_space. by eexists.
  - rewrite split_by_sep by done.
    rewrite split_by_free by by apply token_no_space. by eexists.
Qed.

Lemma split_whitespace_request :
  exists l, split_whitespace request = method :: path :: l.
Proof.
  unfold split_whitespace, request, request_line.
  rewrite split_by_sep by done.
  rewrite (split_by_free _ method) by apply method_token.
  destruct rest_shape as [->|[r ->]].
  - rewrite append_nil_r, split_by_free by apply path_token. simpl.
    rewrite !token_nonempty by done. by eexists.
  - rewrite split_by_sep by done.
    rewrite split_by_free by apply path_token. simpl.
    rewrite !token_nonempty by done. by eexists.
Qed.

Lemma split_slash_path :
  exists l, split "/" path = (l ++ [element])%list.
Proof.
  unfold split, path. destruct directory_shape as [->|[d ->]].
  - exists []. by rewrite append_nil_l, split_by_free.
  - exists (split_by (Ascii.eqb "/") d).
    change (d +:+ "/") with (d +:+ String "/" "").
    rewrite append_assoc, append_cons, append_nil_l.
    rewrite split_by_sep by done. by rewrite (split_by_free _ element).
Qed.

(** C4: on a well-formed log line the function returns the final
    slash-delimited component of the path token, and the path token is the
    one the specification describes: element 1 of the split on the double
    quote, split on whitespace, token 1. *)
Theorem get_last_path_element_of_well_formed_line :
  _get_last_path_element_from_log line = Ok element
  /\ extractLastPathElement line = Some element.
Proof.
  destruct split_quote_line as [l1 H1], split_space_request as [l2 H2],
    split_whitespace_request as [l3 H3], split_slash_path as [l4 H4].
  unfold _get_last_path_element_from_log, extractLastPathElement.
  rewrite H1. cbn [getitem]. simpl. rewrite H2, H3. simpl.
  rewrite H4. split; [apply getitem_last|apply last_snoc].
Qed.

End well_formed_line.

Lemma get_last_path_element_of_well_formed_line_witness :
  _get_last_path_element_from_log liftoff_line = Ok "liftoff.html"
  /\ extractLastPathElement liftoff_line = Some "liftoff.html".
Proof.
  apply (get_last_path_element_of_well_formed_line
           "burger.letters.com - - [01/Jul/1995:00:00:11 -0400] "
           "GET" "/shuttle/countdown/" "liftoff.html" " HTTP/1.0" " 304 0").
  - reflexivity.
  - reflexivity.
  - split; [discriminate|reflexivity].
  - split; [discriminate|reflexivity].
  - right. by exists "HTTP/1.0".
  - right. by exists "/shuttle/countdown".
  - reflexivity.
Defined.

(** Outside well-formed lines the two readings part: with two spaces
    after the method the function takes the empty string between them as
    the path, the split on whitespace takes the path itself. *)
Example double_spaced_request :
  let line := "h - - [t] " +:+ quoted "GET  /images/smogo.gif HTTP/1.0" +:+ " 200 0" in
  _get_last_path_element_from_log line = Ok ""
  /\ extractLastPathElement line = Some "smogo.gif".
Proof. split; reflexivity. Qed.

(** ** Extracting the response code *)

(** The function never raises: a line without a space is its own single
    element, and index -1 is the last element. *)
Lemma get_response_code_total line :
  exists code, _get_response_code_from_log line = Ok code.
Proof.
  unfold _get_response_code_from_log, split.
  destruct (split_by_snoc (Ascii.eqb " ") line) as (l & w & ->).
  destruct l as [|x l _] using rev_ind.
  - exists w. apply getitem_singleton.
  - exists x. rewrite <- app_assoc. apply getitem_second_to_last.
Qed.

Lemma split_whitespace_last_token bytes eol :
  token bytes -> eol = "" \/ eol = nl ->
  List.filter (fun w => negb (String.eqb w "")) (split_by Ascii.is_space (bytes +:+ eol))
  = [bytes].
Proof.
  intros Hbytes [->| ->].
  - rewrite append_nil_r, split_by_free by apply Hbytes. simpl.
    by rewrite token_nonempty.
  - unfold nl. rewrite split_by_sep by done.
    rewrite split_by_free by apply Hbytes. simpl.
    by rewrite token_nonempty.
Qed.

Section single_spaced_line.
Variables before status bytes eol : string.
Let line := before +:+ status +:+ String " " (bytes +:+ eol).
Hypothesis before_shape : before = "" \/ exists b, before = b +:+ " ".
Hypothesis status_token : token status.
Hypothesis bytes_token : token bytes.
Hypothesis eol_shape : eol = "" \/ eol = nl.

Lemma split_space_line :
  exists l, split " " line = (l ++ [status; bytes +:+ eol])%list.
Proof.
  assert (free_of (Ascii.eqb " ") (bytes +:+ eol) = true) as Hlast.
  { rewrite free_of_append, token_no_space by done.
    by destruct eol_shape as [->| ->]. }
  unfold split, line. destruct before_shape as [->|[b ->]].
  - exists []. rewrite append_nil_l, split_by_sep by done.
    rewrite (split_by_free _ status) by by apply token_no_space.
    by rewrite (split_by_free _ (bytes +:+ eol)).
  - exists (split_by (Ascii.eqb " ") b).
    change (b +:+ " ") with (b +:+ String " " "").
    rewrite append_assoc, append_cons, append_nil_l.
    rewrite !split_by_sep by done.
    rewrite (split_by_free _ status) by by apply token_no_space.
    by rewrite (split_by_free _ (bytes +:+ eol)).
Qed.

Lemma split_whitespace_line :
  exists l, split_whitespace line = (l ++ [status; bytes])%list.
Proof.
  unfold split_whitespace, line. destruct before_shape as [->|[b ->]].
  - exists []. rewrite append_nil_l, split_by_sep by done.
    rewrite List.filter_app, split_whitespace_last_token by done.
    rewrite split_by_free by apply status_token. simpl.
    by rewrite token_nonempty.
  - eexists. change (b +:+ " ") with (b +:+ String " " "").
    rewrite append_assoc, append_cons, append_nil_l.
    rewrite !split_by_sep by done.
    rewrite !List.filter_app, split_whitespace_last_token by done.
    rewrite (split_by_free _ status) by apply status_token. simpl.
    by rewrite token_nonempty.
Qed.

(** C5, as the code has it: the line is split at every single space, and
    the element before the last is returned. When the status and the byte
    count are tokens that end the line, each preceded by one space (or the
    status starts the line), that element is the status, and it is the
    second-to-last whitespace-separated token. *)
Theorem get_response_code_of_single_spaced_line :
  _get_response_code_from_log line = Ok status
  /\ extractResponseCode line = Some status.
Proof.
  destruct split_space_line as [l1 H1], split_whitespace_line as [l2 H2].
  unfold _get_response_code_from_log, extractResponseCode.
  rewrite H1, H2. split; [apply getitem_second_to_last|].
  by rewrite reverse_app.
Qed.

End single_spaced_line.

Lemma get_response_code_of_single_spaced_line_witness :
  _get_response_code_from_log (liftoff_line +:+ nl) = Ok "304"
  /\ extractResponseCode (liftoff_line +:+ nl) = Some "304".
Proof.
  apply (get_response_code_of_single_spaced_line
           ("burger.letters.com - - [01/Jul/1995:00:00:11 -0400] "
            +:+ quoted "GET /shuttle/countdown/liftoff.html HTTP/1.0" +:+ " ")
           "304" "0" nl).
  - right.
    by exists ("burger.letters.com - - [01/Jul/1995:00:00:11 -0400] "
               +:+ quoted "GET /shuttle/countdown/liftoff.html HTTP/1.0").
  - split; [discriminate|reflexivity].
  - split; [discriminate|reflexivity].
  - by right.
Defined.

(** C5 as stated fails on a line whose status and byte count are separated
    by a tab: the second-to-last whitespace-separated token is the status,
    the function returns the end of the request field. *)
Lemma tab_separated_response_code :
  let line :=
    "d104.aa.net - - [01/Jul/1995:00:00:15 -0400] "
    +:+ quoted "GET /images/smogo.gif HTTP/1.0" +:+ " 200" +:+ String "009" "0" in
  extractResponseCode line = Some "200"
  /\ _get_response_code_from_log line = Ok ("HTTP/1.0" +:+ String DQUOTE "").
Proof. split; reflexivity. Qed.

(** ** Malformed lines *)

Lemma getitem_1_cons {A} (x : A) (l : list A) :
  getitem (x :: l) 1 =
    match l with y :: _ => Ok y | [] => Raise IndexError end.
Proof. change 1%Z with (Z.of_nat 1). rewrite getitem_nat. by destruct l. Qed.

Lemma getitem_1_split_by p s :
  getitem (split_by p s) 1 =
    match after_first p s with
    | Some rest => Ok (up_to p rest)
    | None => Raise IndexError
    end.
Proof.
  rewrite split_by_unfold, getitem_1_cons.
  destruct (after_first p s) as [rest|]; [|done]. by rewrite split_by_unfold.
Qed.

Lemma getitem_last_split_by p s :
  exists w, getitem (split_by p s) (len (split_by p s) - 1) = Ok w.
Proof.
  destruct (split_by_snoc p s) as (l & w & ->). exists w. apply getitem_last.
Qed.

Lemma get_last_path_element_cases line :
  match request_field line with
  | None => _get_last_path_element_from_log line = Raise IndexError
  | Some request =>
      if free_of (Ascii.eqb " ") request
      then _get_last_path_element_from_log line = Raise IndexError
      else exists element, _get_last_path_element_from_log line = Ok element
  end.
Proof.
  unfold _get_last_path_element_from_log, request_field, split.
  rewrite getitem_1_split_by.
  destruct (after_first (Ascii.eqb DQUOTE) line) as [rest|]; [|done]. simpl.
  rewrite getitem_1_split_by.
  destruct (free_of _ _) eqn:Hfree.
  - apply after_first_None in Hfree. by rewrite Hfree.
  - destruct (after_first (Ascii.eqb " ") _) as [rest'|] eqn:Hafter.
    + simpl. apply getitem_last_split_by.
    + apply after_first_None in Hafter. congruence.
Qed.

Lemma malformed_raises line :
  malformed line = true <-> _get_last_path_element_from_log line = Raise IndexError.
Proof.
  pose proof (get_last_path_element_cases line) as H. unfold malformed.
  destruct (request_field line) as [request|]; [|done].
  destruct (free_of _ _); [done|]. destruct H as [element ->]. done.
Qed.

Lemma well_formed_returns line :
  malformed line = false -> exists element, _get_last_path_element_from_log line = Ok element.
Proof.
  pose proof (get_last_path_element_cases line) as H. unfold malformed.
  destruct (request_field line) as [request|]; [|done].
  by destruct (free_of _ _).
Qed.

(** ** The filtering run *)

Section filtering_run.
Variable self : ResponseFilter.t.

Lemma loop_body_malformed line written :
  malformed line = true -> loop_body self line written = (written, Raise IndexError).
Proof. intros H%malformed_raises. unfold loop_body. by rewrite H. Qed.

Lemma loop_body_well_formed line written :
  malformed line = false ->
  loop_body self line written =
    (written +:+ filtered_output self [line], Ok ()).
Proof.
  intros [element He]%well_formed_returns.
  destruct (get_response_code_total line) as [code Hc].
  unfold loop_body, filtered_output, passing_element. simpl. rewrite He, Hc.
  destruct (truthy _); simpl; [|by rewrite append_nil_r].
  destruct (_response_code_passes_filter _ _); simpl; by rewrite append_nil_r.
Qed.

Lemma filtered_output_cons line lines :
  filtered_output self (line :: lines) =
    filtered_output self [line] +:+ filtered_output self lines.
Proof.
  unfold filtered_output. simpl. destruct (passing_element self line); simpl.
  - by rewrite append_nil_r.
  - reflexivity.
Qed.

Lemma for_line_in_well_formed lines written :
  Forall (fun line => malformed line = false) lines ->
  for_line_in self lines written = (written +:+ filtered_output self lines, Ok ()).
Proof.
  intros H. revert written.
  induction H as [|line lines Hline _ IH]; intros written; simpl.
  - by rewrite append_nil_r.
  - rewrite loop_body_well_formed by done. rewrite IH.
    by rewrite (filtered_output_cons line lines), append_assoc.
Qed.

Lemma for_line_in_malformed good bad rest written :
  Forall (fun line => malformed line = false) good ->
  malformed bad = true ->
  for_line_in self (good ++ bad :: rest) written =
    (written +:+ filtered_output self good, Raise IndexError).
Proof.
  intros H Hbad. revert written.
  induction H as [|line lines Hline _ IH]; intros written; simpl.
  - rewrite loop_body_malformed by done. by rewrite append_nil_r.
  - rewrite loop_body_well_formed by done. rewrite IH.
    by rewrite (filtered_output_cons line lines), append_assoc.
Qed.

End filtering_run.

Lemma first_malformed lines :
  Exists (fun line => malformed line = true) lines ->
  exists good bad rest,
    lines = (good ++ bad :: rest)%list
    /\ Forall (fun line => malformed line = false) good
    /\ malformed bad = true.
Proof.
  induction 1 as [line lines H|line lines _ IH].
  - by exists [], line, lines.
  - destruct (malformed line) eqn:E.
    + by exists [], line, lines.
    + destruct IH as (good & bad & rest & -> & Hgood & Hbad).
      exists (line :: good), bad, rest. by repeat constructor.
Qed.

Lemma all_well_formed lines :
  forallb (fun line => negb (malformed line)) lines = true ->
  Forall (fun line => malformed line = false) lines.
Proof.
  induction lines as [|line lines IH]; simpl; [constructor|].
  intros [Hline Hlines]%andb_prop. constructor; [|by apply IH].
  by apply negb_true_iff.
Qed.

Lemma output_name_differs filename : "gifs_" +:+ filename <> filename.
Proof.
  intros H%(f_equal String.length).
  rewrite !append_cons, append_nil_l in H. simpl in H. lia.
Qed.

Lemma run_on_well_formed_lines (self : ResponseFilter.t)
    (fs : gmap string string) (content : string) :
  fs !! _filename self = Some content ->
  Forall (fun line => malformed line = false) (readlines content) ->
  create_new_file_with_filtered_elements self fs =
    (<[filtered_elements_filename self := filtered_output self (readlines content)]> fs,
     Ok ()).
Proof.
  intros Hfile Hlines. unfold create_new_file_with_filtered_elements.
  rewrite Hfile. by rewrite for_line_in_well_formed.
Qed.

(** C2: when every line of the source is well formed, the run succeeds and
    the output file, named by prefixing the source name with gifs_, holds
    the last path element of each line that passes both filters, each
    followed by a newline, in source order and with repetitions kept. *)
Theorem filtering_run_writes_passing_elements
    (filename extension_filter response_code_filter : string)
    (fs : gmap string string) (content : string) :
  let self := __init__ filename extension_filter response_code_filter in
  fs !! filename = Some content ->
  Forall (fun line => malformed line = false) (readlines content) ->
  filtered_elements_filename self = "gifs_" +:+ filename
  /\ create_new_file_with_filtered_elements self fs =
       (<["gifs_" +:+ filename :=
            join ((fun element => element +:+ nl) <$>
                    omap (passing_element self) (readlines content))]> fs,
        Ok ()).
Proof.
  intros self Hfile Hlines. split; [reflexivity|].
  by rewrite (run_on_well_formed_lines self fs content).
Qed.

Lemma filtering_run_writes_passing_elements_witness :
  create_new_file_with_filtered_elements res_filter
    {[ "sample_test_input_file.txt" := sample_test_input_file ]}
  = (<["gifs_sample_test_input_file.txt" :=
         join ((fun element => element +:+ nl) <$>
                 ["livevideo.GIF"; "livevideo.GIF"; "count.gif";
                  "NASA-logosmall.gif"; "KSC-logosmall.gif"; "count.gif";
                  "NASA-logosmall.gif"; "NASA-logosmall.gif"; "smogo.gif"])]>
       {[ "sample_test_input_file.txt" := sample_test_input_file ]},
     Ok ()).
Proof.
  refine (proj2 (filtering_run_writes_passing_elements
                   "sample_test_input_file.txt" ".gif" "200"
                   {[ "sample_test_input_file.txt" := sample_test_input_file ]}
                   sample_test_input_file _ _)).
  - apply lookup_singleton_eq.
  - apply all_well_formed. vm_compute. reflexivity.
Defined.

(** C7, as the code has it: a source with a line that has no double
    quote, or whose request field has no space, makes the run raise at the
    first such line, where [_get_last_path_element_from_log] raises
    IndexError; the lines after it are not processed, and the output file
    holds what the lines before it produced. *)
Theorem malformed_line_aborts_the_run
    (filename extension_filter response_code_filter : string)
    (fs : gmap string string) (content : string) :
  let self := __init__ filename extension_filter response_code_filter in
  fs !! filename = Some content ->
  Exists (fun line => malformed line = true) (readlines content) ->
  exists good bad rest,
    readlines content = (good ++ bad :: rest)%list
    /\ Forall (fun line => malformed line = false) good
    /\ malformed bad = true
    /\ _get_last_path_element_from_log bad = Raise IndexError
    /\ create_new_file_with_filtered_elements self fs =
         (<["gifs_" +:+ filename := filtered_output self good]> fs,
          Raise IndexError).
Proof.
  intros self Hfile (good & bad & rest & Hlines & Hgood & Hbad)%first_malformed.
  exists good, bad, rest. repeat split; try done.
  - by apply malformed_raises.
  - unfold create_new_file_with_filtered_elements. simpl.
    rewrite Hfile, Hlines. by rewrite for_line_in_malformed.
Qed.

Lemma malformed_line_aborts_the_run_witness :
  exists good bad rest,
    readlines broken_log = (good ++ bad :: rest)%list
    /\ Forall (fun line => malformed line = false) good
    /\ malformed bad = true
    /\ _get_last_path_element_from_log bad = Raise IndexError
    /\ create_new_file_with_filtered_elements (__init__ "access.log" ".gif" "200")
         {[ "access.log" := broken_log ]} =
         (<["gifs_access.log" :=
              filtered_output (__init__ "access.log" ".gif" "200") good]>
            {[ "access.log" := broken_log ]},
          Raise IndexError).
Proof.
  apply (malformed_line_aborts_the_run "access.log" ".gif" "200"
           {[ "access.log" := broken_log ]} broken_log).
  - apply lookup_singleton_eq.
  - apply Exists_cons_tl, Exists_cons_hd. reflexivity.
Defined.

(** C7 as stated fails for a request field that lacks the path token but
    has a space: in "GET " the split at the space gives the method and an
    empty string, which is taken as the path. Nothing is raised; the line
    is passed over and the run goes on to the end of the source. *)
Lemma request_without_path_does_not_abort :
  let line := "h - - [t] " +:+ quoted "GET " +:+ " 200 0" +:+ nl in
  let self := __init__ "access.log" ".gif" "200" in
  request_field line = Some "GET "
  /\ split_whitespace "GET " = ["GET"]
  /\ extractLastPathElement line = None
  /\ _get_last_path_element_from_log line = Ok ""
  /\ In line (readlines pathless_log)
  /\ create_new_file_with_filtered_elements self {[ "access.log" := pathless_log ]}
     = (<["gifs_access.log" := ("smogo.gif" +:+ nl) +:+ ("count.gif" +:+ nl)]>
          {[ "access.log" := pathless_log ]},
        Ok ()).
Proof.
  intros line self. repeat split; try reflexivity.
  right. by left.
Qed.

(** The run on [broken_log]: the element of the first line is written, the
    second line raises, the third is never reached. *)
Example broken_log_run :
  for_line_in (__init__ "access.log" ".gif" "200") (readlines broken_log) ""
  = ("smogo.gif" +:+ nl, Raise IndexError).
Proof. reflexivity. Qed.

(** C9: the run changes no file but its output file, whose name differs
    from the source name, so the source is as it was. *)
Theorem filtering_run_writes_the_output_file_only
    (filename extension_filter response_code_filter : string)
    (fs : gmap string string) (other : string) :
  let self := __init__ filename extension_filter response_code_filter in
  let fs' := fst (create_new_file_with_filtered_elements self fs) in
  other <> filtered_elements_filename self ->
  fs' !! other = fs !! other
  /\ fs' !! filename = fs !! filename
  /\ filtered_elements_filename self = "gifs_" +:+ filename.
Proof.
  intros self fs' Hother.
  assert (forall name, name <> "gifs_" +:+ filename -> fs' !! name = fs !! name) as H.
  { intros name Hname. unfold fs', create_new_file_with_filtered_elements. simpl.
    destruct (fs !! filename) as [content|]; [|done].
    destruct (for_line_in _ _ _) as [written outcome]. simpl.
    by rewrite lookup_insert_ne. }
  split; [by apply H|]. split; [|done].
  apply H. intros Heq. by apply (output_name_differs filename).
Qed.

Lemma filtering_run_writes_the_output_file_only_witness :
  let fs : gmap string string :=
    {[ "access.log" := broken_log; "notes.txt" := "keep" ]} in
  let fs' := fst (create_new_file_with_filtered_elements
                    (__init__ "access.log" ".gif" "200") fs) in
  fs' !! "notes.txt" = fs !! "notes.txt"
  /\ fs' !! "access.log" = fs !! "access.log"
  /\ "gifs_access.log" = "gifs_access.log".
Proof.
  apply (filtering_run_writes_the_output_file_only "access.log" ".gif" "200"
           {[ "access.log" := broken_log; "notes.txt" := "keep" ]} "notes.txt").
  discriminate.
Defined.

(** ** The empty extension filter *)

Lemma passing_element_empty_filter filename response_code_filter line :
  passing_element (__init__ filename "" response_code_filter) line
  = element_with_code response_code_filter line.
Proof.
  unfold passing_element, element_with_code,
    _last_path_element_passes_extension_filter, _response_code_passes_filter.
  simpl. destruct (_get_last_path_element_from_log line) as [element|]; [|done].
  by rewrite endswith_nil.
Qed.

Lemma omap_passing_element_empty_filter filename response_code_filter
    (lines : list string) :
  omap (passing_element (__init__ filename "" response_code_filter)) lines
  = omap (element_with_code response_code_filter) lines.
Proof.
  induction lines as [|line lines IH]; [done|].
  cbn [omap list_omap]. by rewrite passing_element_empty_filter, IH.
Qed.

(** C10: with the empty string as extension filter every path element is
    accepted, and the run on well-formed lines writes the last path
    element, the empty one of a path that ends with a slash included, of
    every line whose response code equals the code filter. *)
Theorem empty_extension_filter_accepts_every_element
    (filename response_code_filter : string)
    (fs : gmap string string) (content : string) :
  let self := __init__ filename "" response_code_filter in
  fs !! filename = Some content ->
  Forall (fun line => malformed line = false) (readlines content) ->
  (forall element, _last_path_element_passes_extension_filter self element = PyTrue)
  /\ create_new_file_with_filtered_elements self fs =
       (<["gifs_" +:+ filename :=
            join ((fun element => element +:+ nl) <$>
                    omap (element_with_code response_code_filter) (readlines content))]> fs,
        Ok ()).
Proof.
  intros self Hfile Hlines. split.
  - intros element. unfold _last_path_element_passes_extension_filter. simpl.
    by rewrite endswith_nil.
  - rewrite (run_on_well_formed_lines self fs content) by done.
    unfold filtered_output, self. by rewrite omap_passing_element_empty_filter.
Qed.

Lemma empty_extension_filter_accepts_every_element_witness :
  (forall element,
     _last_path_element_passes_extension_filter (__init__ "access.log" "" "200") element
     = PyTrue)
  /\ create_new_file_with_filtered_elements (__init__ "access.log" "" "200")
       {[ "access.log" := directory_log ]} =
       (<["gifs_access.log" := join ((fun element => element +:+ nl) <$> [""; "smogo.gif"])]>
          {[ "access.log" := directory_log ]},
        Ok ()).
Proof.
  apply (empty_extension_filter_accepts_every_element "access.log" "200"
           {[ "access.log" := directory_log ]} directory_log).
  - apply lookup_singleton_eq.
  - apply all_well_formed. vm_compute. reflexivity.
Defined.

(** ** Lines of a text file *)

Section lines.
Implicit Types (s t : string) (c : ascii) (l : string) (ls : list string).

Lemma lines_of_text_cons c s :
  lines_of_text (String c s) =
    if Ascii.eqb c LF then nl :: lines_of_text s
    else match lines_of_text s with
         | l :: ls => String c l :: ls
         | [] => [String c ""]
         end.
Proof. reflexivity. Qed.

Lemma join_lines_of_text s : join (lines_of_text s) = s.
Proof.
  induction s as [|c s IH]; [reflexivity|]. simpl.
  destruct (Ascii.eqb_spec c LF) as [->|Hc].
  - simpl. by rewrite IH.
  - destruct (lines_of_text s) as [|l ls]; simpl in *.
    + by rewrite <- IH.
    + by rewrite append_cons, IH.
Qed.

Lemma complete_line_cons c l : c <> LF -> complete_line l -> complete_line (String c l).
Proof.
  intros Hc (body & -> & Hbody). exists (String c body). split; [done|].
  rewrite free_of_cons, Hbody. by destruct (Ascii.eqb_spec LF c).
Qed.

Lemma unterminated_line_cons c s :
  c <> LF -> free_of (Ascii.eqb LF) s = true -> unterminated_line (String c s).
Proof.
  intros Hc Hs. split; [done|]. rewrite free_of_cons, Hs.
  by destruct (Ascii.eqb_spec LF c).
Qed.

(** The lines of a text are complete lines, followed by at most one
    unterminated line. *)
Lemma lines_of_text_shape s :
  exists ls last,
    lines_of_text s = (ls ++ last)%list
    /\ Forall complete_line ls
    /\ (last = [] \/ exists x, last = [x] /\ unterminated_line x).
Proof.
  induction s as [|c s (ls & last & IH & Hls & Hlast)].
  - exists [], []. by repeat split; [constructor|left].
  - simpl. destruct (Ascii.eqb_spec c LF) as [->|Hc].
    + exists (nl :: ls), last. rewrite IH. repeat split; [|done].
      constructor; [|done]. by exists "".
    + rewrite IH. destruct ls as [|l ls]; simpl.
      * destruct Hlast as [->|(x & -> & Hx)].
        -- exists [], [String c ""]. repeat split; [constructor|].
           right. eexists. split; [done|]. by apply unterminated_line_cons.
        -- exists [], [String c x]. repeat split; [constructor|].
           right. eexists. split; [done|]. apply unterminated_line_cons; [done|apply Hx].
      * exists (String c l :: ls), last. repeat split; [|done].
        apply Forall_cons in Hls as [Hl Hls]. constructor; [|done].
        by apply complete_line_cons.
Qed.

Lemma lines_of_text_complete_line l s :
  complete_line l -> lines_of_text (l +:+ s) = l :: lines_of_text s.
Proof.
  intros (body & -> & Hbody). induction body as [|c body IH].
  - rewrite append_nil_l. unfold nl.
    by rewrite append_cons, append_nil_l, lines_of_text_cons, Ascii.eqb_refl.
  - rewrite free_of_cons in Hbody. apply andb_prop in Hbody as [Hc Hbody].
    apply negb_true_iff in Hc.
    rewrite !append_cons, lines_of_text_cons, Ascii.eqb_sym, Hc. by rewrite IH.
Qed.

Lemma lines_of_text_unterminated_line x :
  unterminated_line x -> lines_of_text x = [x].
Proof.
  intros [Hne Hx]. induction x as [|c x IH]; [done|].
  rewrite free_of_cons in Hx. apply andb_prop in Hx as [Hc Hx].
  apply negb_true_iff in Hc. rewrite lines_of_text_cons, Ascii.eqb_sym, Hc.
  destruct x as [|c' x]; [done|]. by rewrite IH.
Qed.

Lemma lines_of_text_join ls s :
  Forall complete_line ls -> lines_of_text (join ls +:+ s) = (ls ++ lines_of_text s)%list.
Proof.
  induction 1 as [|l ls Hl _ IH]; [by rewrite append_nil_l|].
  simpl. rewrite append_assoc, lines_of_text_complete_line by done. by rewrite IH.
Qed.

Lemma complete_line_terminated l : complete_line l -> terminated l.
Proof. intros (body & -> & _). apply endswith_iff. by exists body. Qed.

Lemma free_of_snoc p s c : free_of p (s +:+ String c "") = true -> p c = false.
Proof.
  rewrite free_of_append, free_of_cons. intros [_ H]%andb_prop.
  apply andb_prop in H as [H _]. by apply negb_true_iff.
Qed.

Lemma unterminated_line_not_terminated x : unterminated_line x -> ~ terminated x.
Proof.
  intros [_ Hx] [u ->]%endswith_iff. apply free_of_snoc in Hx.
  by rewrite Ascii.eqb_refl in Hx.
Qed.

(** *** Universal newlines *)

Lemma universal_newlines_cons c s :
  universal_newlines (String c s) =
    if Ascii.eqb c CR then
      match s with
      | String c' _ =>
          if Ascii.eqb c' LF then universal_newlines s
          else String LF (universal_newlines s)
      | "" => nl
      end
    else String c (universal_newlines s).
Proof. reflexivity. Qed.

Lemma universal_newlines_no_CR s :
  free_of (Ascii.eqb CR) (universal_newlines s) = true.
Proof.
  induction s as [|c s IH]; [reflexivity|]. rewrite universal_newlines_cons.
  destruct (Ascii.eqb_spec c CR) as [->|Hc].
  - destruct s as [|c' s]; [reflexivity|].
    destruct (Ascii.eqb c' LF); [done|]. by rewrite free_of_cons, IH.
  - rewrite free_of_cons, IH. by destruct (Ascii.eqb_spec CR c).
Qed.

Lemma universal_newlines_id s :
  free_of (Ascii.eqb CR) s = true -> universal_newlines s = s.
Proof.
  induction s as [|c s IH]; [reflexivity|]. rewrite free_of_cons.
  intros [Hc Hs]%andb_prop. apply negb_true_iff in Hc.
  rewrite universal_newlines_cons, Ascii.eqb_sym, Hc. by rewrite IH.
Qed.

Lemma readlines_no_CR content :
  Forall (fun l => free_of (Ascii.eqb CR) l = true) (readlines content).
Proof.
  unfold readlines. apply free_of_join.
  rewrite join_lines_of_text. apply universal_newlines_no_CR.
Qed.

Lemma readlines_shape content :
  exists ls last,
    readlines content = (ls ++ last)%list
    /\ Forall complete_line ls
    /\ (last = [] \/ exists x, last = [x] /\ unterminated_line x).
Proof. apply lines_of_text_shape. Qed.

(** Reading back what was written line by line. *)
Lemma readlines_join ls last :
  Forall complete_line ls ->
  Forall (fun l => free_of (Ascii.eqb CR) l = true) (ls ++ last) ->
  last = [] \/ (exists x, last = [x] /\ unterminated_line x) ->
  readlines (join (ls ++ last)) = (ls ++ last)%list.
Proof.
  intros Hls Hcr Hlast. unfold readlines.
  rewrite universal_newlines_id by by apply free_of_join.
  rewrite join_app, lines_of_text_join by done. f_equal.
  destruct Hlast as [->|(x & -> & Hx)]; [done|].
  simpl. rewrite append_nil_r. by apply lines_of_text_unterminated_line.
Qed.

Lemma terminated_lines_complete content :
  Forall terminated (readlines content) -> Forall complete_line (readlines content).
Proof.
  destruct (readlines_shape content) as (ls & last & -> & Hls & Hlast).
  destruct Hlast as [->|(x & -> & Hx)]; [by rewrite app_nil_r|].
  rewrite Forall_app, Forall_singleton. intros [_ Hx'].
  by apply unterminated_line_not_terminated in Hx.
Qed.

End lines.

(** ** Removing duplicate lines *)

Lemma ascending_iteration : set_iteration ascending.
Proof. intros s. apply merge_sort_Permutation. Qed.

Lemma descending_iteration : set_iteration descending.
Proof.
  intros s. unfold descending. rewrite reverse_Permutation.
  apply ascending_iteration.
Qed.

Section remove_duplicates.
Variable order : gset string -> list string.
Hypothesis order_iterates : set_iteration order.
Variables (filename : string) (fs : gmap string string) (content : string).
Hypothesis file_content : fs !! filename = Some content.

Let filtered_lines : gset string := list_to_set (readlines content).

Lemma remove_duplicates_writes :
  remove_duplicates order filename fs =
    (<[filename := join (order filtered_lines)]> fs, Ok ()).
Proof.
  unfold remove_duplicates. rewrite file_content.
  by rewrite write_all_join, append_nil_l.
Qed.

Lemma written_iff line : line ∈ order filtered_lines <-> line ∈ readlines content.
Proof.
  rewrite (order_iterates filtered_lines), elem_of_elements.
  apply elem_of_list_to_set.
Qed.

Lemma written_NoDup : NoDup (order filtered_lines).
Proof. rewrite (order_iterates filtered_lines). apply NoDup_elements. Qed.

Lemma written_length : length (order filtered_lines) = size filtered_lines.
Proof. by rewrite (order_iterates filtered_lines). Qed.

Lemma written_no_CR :
  Forall (fun l => free_of (Ascii.eqb CR) l = true) (order filtered_lines).
Proof.
  apply Forall_forall. intros line Hline%written_iff.
  revert line Hline. apply Forall_forall, readlines_no_CR.
Qed.

Lemma readlines_rewritten :
  Forall terminated (readlines content) ->
  readlines (join (order filtered_lines)) = order filtered_lines.
Proof.
  intros Hterm%terminated_lines_complete.
  rewrite <- (app_nil_r (order filtered_lines)).
  apply readlines_join; [|rewrite app_nil_r; apply written_no_CR|by left].
  apply Forall_forall. intros line Hline%written_iff.
  revert line Hline. by apply Forall_forall.
Qed.

End remove_duplicates.

(** C3, for a file whose lines all end in a newline (the empty file
    included): whatever the iteration order of the set, after
    [remove_duplicates] the lines of the file are the distinct lines of
    the input, each exactly once and nothing else, and their number is the
    number of distinct input lines. *)
Theorem remove_duplicates_keeps_each_distinct_line_once
    (order : gset string -> list string) (filename : string)
    (fs : gmap string string) (content : string) :
  set_iteration order ->
  fs !! filename = Some content ->
  Forall terminated (readlines content) ->
  exists content',
    remove_duplicates order filename fs = (<[filename := content']> fs, Ok ())
    /\ NoDup (readlines content')
    /\ (forall line, line ∈ readlines content' <-> line ∈ readlines content)
    /\ length (readlines content') = size (list_to_set (readlines content) : gset string).
Proof.
  intros Horder Hfile Hterm. eexists. split; [by apply remove_duplicates_writes|].
  rewrite readlines_rewritten by done. split; [by apply written_NoDup|].
  split; [intros line; by apply written_iff|by apply written_length].
Qed.

Lemma remove_duplicates_keeps_each_distinct_line_once_witness :
  exists content',
    remove_duplicates ascending "test_file.txt" {[ "test_file.txt" := test_file ]}
    = (<["test_file.txt" := content']> {[ "test_file.txt" := test_file ]}, Ok ())
    /\ NoDup (readlines content')
    /\ (forall line, line ∈ readlines content' <-> line ∈ readlines test_file)
    /\ length (readlines content') = size (list_to_set (readlines test_file) : gset string).
Proof.
  apply (remove_duplicates_keeps_each_distinct_line_once ascending "test_file.txt"
           {[ "test_file.txt" := test_file ]} test_file).
  - apply ascending_iteration.
  - apply lookup_singleton_eq.
  - vm_compute. repeat constructor.
Defined.

(** C3 as stated fails for a file whose last line lacks the newline: when
    the set hands out that line before another one, the two are written
    as one line. *)
Lemma remove_duplicates_fuses_unterminated_line :
  set_iteration descending
  /\ readlines ("A" +:+ nl +:+ "B") = ["A" +:+ nl; "B"]
  /\ remove_duplicates descending "test_file.txt"
       {[ "test_file.txt" := "A" +:+ nl +:+ "B" ]}
     = (<["test_file.txt" := "BA" +:+ nl]> {[ "test_file.txt" := "A" +:+ nl +:+ "B" ]},
        Ok ())
  /\ readlines ("BA" +:+ nl) = ["BA" +:+ nl].
Proof.
  split; [apply descending_iteration|]. split; [reflexivity|]. split; [|reflexivity].
  rewrite (remove_duplicates_writes descending _ _ ("A" +:+ nl +:+ "B"))
    by apply lookup_singleton_eq.
  reflexivity.
Qed.

(** C6, for a file whose lines all end in a newline: a second run, in
    whatever order either run iterates over its set, leaves a file with
    the same set of lines as the first run, the set of the input lines. *)
Theorem remove_duplicates_twice_keeps_the_lines
    (order1 order2 : gset string -> list string) (filename : string)
    (fs : gmap string string) (content : string) :
  set_iteration order1 ->
  set_iteration order2 ->
  fs !! filename = Some content ->
  Forall terminated (readlines content) ->
  exists once twice,
    remove_duplicates order1 filename fs = (<[filename := once]> fs, Ok ())
    /\ remove_duplicates order2 filename (<[filename := once]> fs)
       = (<[filename := twice]> fs, Ok ())
    /\ (list_to_set (readlines twice) : gset string) = list_to_set (readlines once)
    /\ (list_to_set (readlines once) : gset string) = list_to_set (readlines content).
Proof.
  intros Horder1 Horder2 Hfile Hterm.
  set (once := join (order1 (list_to_set (readlines content)))).
  assert (readlines once = order1 (list_to_set (readlines content))) as Honce
    by by apply readlines_rewritten.
  assert (Forall terminated (readlines once)) as Hterm'.
  { rewrite Honce. apply Forall_forall. intros line Hline%written_iff; [|done].
    revert line Hline. by apply Forall_forall. }
  exists once, (join (order2 (list_to_set (readlines once)))).
  split; [by apply remove_duplicates_writes|].
  split.
  { rewrite (remove_duplicates_writes order2 filename _ once)
      by apply lookup_insert_eq.
    by rewrite insert_insert_eq. }
  split.
  - rewrite readlines_rewritten by done.
    rewrite (Horder2 _). apply list_to_set_elements_L.
  - rewrite Honce, (Horder1 _). apply list_to_set_elements_L.
Qed.

Lemma remove_duplicates_twice_keeps_the_lines_witness :
  exists once twice,
    remove_duplicates descending "test_file.txt" {[ "test_file.txt" := test_file ]}
    = (<["test_file.txt" := once]> {[ "test_file.txt" := test_file ]}, Ok ())
    /\ remove_duplicates ascending "test_file.txt"
         (<["test_file.txt" := once]> {[ "test_file.txt" := test_file ]})
       = (<["test_file.txt" := twice]> {[ "test_file.txt" := test_file ]}, Ok ())
    /\ (list_to_set (readlines twice) : gset string) = list_to_set (readlines once)
    /\ (list_to_set (readlines once) : gset string) = list_to_set (readlines test_file).
Proof.
  apply (remove_duplicates_twice_keeps_the_lines descending ascending "test_file.txt"
           {[ "test_file.txt" := test_file ]} test_file).
  - apply descending_iteration.
  - apply ascending_iteration.
  - apply lookup_singleton_eq.
  - vm_compute. repeat constructor.
Defined.

(** C6 as stated fails for a file whose last line lacks the newline: the
    first run may leave that line last, and the second run may write it
    first, where it runs into the line written next. *)
Lemma remove_duplicates_twice_fuses_unterminated_line :
  let input := "X" +:+ nl +:+ "X" in
  let fs : gmap string string := {[ "test_file.txt" := input ]} in
  set_iteration descending
  /\ set_iteration ascending
  /\ remove_duplicates descending "test_file.txt" fs
     = (<["test_file.txt" := input]> fs, Ok ())
  /\ remove_duplicates ascending "test_file.txt" (<["test_file.txt" := input]> fs)
     = (<["test_file.txt" := "XX" +:+ nl]> fs, Ok ())
  /\ readlines input = ["X" +:+ nl; "X"]
  /\ readlines ("XX" +:+ nl) = ["XX" +:+ nl]
  /\ (list_to_set (readlines ("XX" +:+ nl)) : gset string)
     <> list_to_set (readlines input).
Proof.
  intros input fs.
  split; [apply descending_iteration|]. split; [apply ascending_iteration|].
  split.
  { rewrite (remove_duplicates_writes descending _ _ input)
      by apply lookup_singleton_eq.
    reflexivity. }
  split.
  { rewrite (remove_duplicates_writes ascending _ _ input)
      by apply lookup_insert_eq.
    rewrite insert_insert_eq. reflexivity. }
  split; [reflexivity|]. split; [reflexivity|].
  intros H.
  assert ("X" ∈ (list_to_set (readlines input) : gset string)) as Hin.
  { apply elem_of_list_to_set, list_elem_of_In. right. by left. }
  rewrite <- H in Hin. apply elem_of_list_to_set, list_elem_of_In in Hin.
  by destruct Hin as [?|[]].
Qed.

(** An unterminated line of a file is its last line, after complete lines. *)
Lemma unterminated_line_is_last content x :
  x ∈ readlines content -> ~ terminated x ->
  exists ls, readlines content = (ls ++ [x])%list
             /\ Forall complete_line ls /\ unterminated_line x.
Proof.
  intros Hx Hnot.
  destruct (readlines_shape content) as (ls & last & Hlines & Hls & Hlast).
  rewrite Hlines in Hx. apply elem_of_app in Hx as [Hx|Hx].
  { destruct Hnot. apply complete_line_terminated.
    revert x Hx. by apply Forall_forall. }
  destruct Hlast as [->|(x' & -> & Hx')]; [by apply elem_of_nil in Hx|].
  apply list_elem_of_singleton in Hx as ->. by exists ls.
Qed.

(** C8, as the code has it: the unterminated last line and the same text
    with its newline are two elements of the set, and each is written
    once. When the unterminated one is written last, the file read back
    has them as two of its lines; written earlier, it is followed on its
    line by what is written next. *)
Theorem unterminated_line_is_a_distinct_element
    (order : gset string -> list string) (filename : string)
    (fs : gmap string string) (content x : string) :
  set_iteration order ->
  fs !! filename = Some content ->
  x ∈ readlines content ->
  x +:+ nl ∈ readlines content ->
  ~ terminated x ->
  let written := order (list_to_set (readlines content)) in
  remove_duplicates order filename fs = (<[filename := join written]> fs, Ok ())
  /\ x <> x +:+ nl
  /\ NoDup written
  /\ x ∈ written
  /\ x +:+ nl ∈ written
  /\ (forall front, written = (front ++ [x])%list -> readlines (join written) = written).
Proof.
  intros Horder Hfile Hx Hxnl Hnot written.
  split; [by apply remove_duplicates_writes|].
  split. { intros Heq. destruct Hnot. apply endswith_iff. by exists x. }
  split; [by apply written_NoDup|].
  split; [by apply written_iff|]. split; [by apply written_iff|].
  intros front Hfront.
  destruct (unterminated_line_is_last content x Hx Hnot) as (ls & Hlines & Hls & Hunt).
  pose proof (written_NoDup order Horder content) as Hnodup.
  pose proof (written_no_CR order Horder content) as Hcr.
  fold written in Hnodup, Hcr. rewrite Hfront in Hnodup, Hcr |- *.
  apply readlines_join; [|done|right; by exists x].
  apply Forall_forall. intros y Hy.
  assert (y ∈ readlines content) as Hy'.
  { apply (written_iff order Horder). fold written. rewrite Hfront.
    apply elem_of_app. by left. }
  rewrite Hlines in Hy'. apply elem_of_app in Hy' as [Hy'|Hy'].
  - revert y Hy' Hy. rewrite <- Forall_forall.
    eapply Forall_impl; [exact Hls|]. auto.
  - apply list_elem_of_singleton in Hy' as ->.
    apply NoDup_app in Hnodup as (_ & Hdisj & _).
    destruct (Hdisj x Hy). by apply list_elem_of_singleton.
Qed.

Lemma unterminated_line_is_a_distinct_element_witness :
  let input := "count.gif" +:+ nl +:+ "smogo.gif" +:+ nl +:+ "count.gif" in
  let written := descending (list_to_set (readlines input)) in
  remove_duplicates descending "test_file.txt" {[ "test_file.txt" := input ]}
  = (<["test_file.txt" := join written]> {[ "test_file.txt" := input ]}, Ok ())
  /\ "count.gif" <> "count.gif" +:+ nl
  /\ NoDup written
  /\ "count.gif" ∈ written
  /\ "count.gif" +:+ nl ∈ written
  /\ (forall front, written = (front ++ ["count.gif"])%list ->
      readlines (join written) = written).
Proof.
  apply (unterminated_line_is_a_distinct_element descending "test_file.txt"
           {[ "test_file.txt" := "count.gif" +:+ nl +:+ "smogo.gif" +:+ nl +:+ "count.gif" ]}
           ("count.gif" +:+ nl +:+ "smogo.gif" +:+ nl +:+ "count.gif") "count.gif").
  - apply descending_iteration.
  - apply lookup_singleton_eq.
  - apply list_elem_of_In. vm_compute. tauto.
  - apply list_elem_of_In. vm_compute. tauto.
  - unfold terminated. vm_compute. discriminate.
Defined.

(** The order of the witness: the smogo.gif line, count.gif with its
    newline, and the unterminated count.gif last. *)
Example unterminated_line_written_last :
  descending (list_to_set
    (readlines ("count.gif" +:+ nl +:+ "smogo.gif" +:+ nl +:+ "count.gif")))
  = ["smogo.gif" +:+ nl; "count.gif" +:+ nl; "count.gif"].
Proof. reflexivity. Qed.

(** C8 as stated fails when the unterminated line is written first: the
    rewritten file has one line, made of both. *)
Lemma unterminated_line_written_first :
  let input := "count.gif" +:+ nl +:+ "count.gif" in
  let fs : gmap string string := {[ "test_file.txt" := input ]} in
  set_iteration ascending
  /\ readlines input = ["count.gif" +:+ nl; "count.gif"]
  /\ remove_duplicates ascending "test_file.txt" fs
     = (<["test_file.txt" := "count.gifcount.gif" +:+ nl]> fs, Ok ())
  /\ readlines ("count.gifcount.gif" +:+ nl) = ["count.gifcount.gif" +:+ nl].
Proof.
  intros input fs. split; [apply ascending_iteration|]. split; [reflexivity|].
  split; [|reflexivity].
  rewrite (remove_duplicates_writes ascending _ _ input) by apply lookup_singleton_eq.
  reflexivity.
Qed.

(** * Further properties of the code *)

(** ** Pieces of a split *)

Section pieces.
Implicit Types (s t u w : string) (c : ascii) (p q : ascii -> bool).

Lemma up_to_prefix p s : exists rest, s = up_to p s +:+ rest.
Proof.
  induction s as [|c s [rest IH]]; [by exists ""|]. simpl.
  destruct (p c); [by exists (String c s)|].
  exists rest. by rewrite append_cons, <- IH.
Qed.

Lemma up_to_free p s : free_of p (up_to p s) = true.
Proof.
  induction s as [|c s IH]; [done|]. simpl.
  destruct (p c) eqn:E; [done|]. by rewrite free_of_cons, E, IH.
Qed.

(** Every piece is free of the separator. *)
Lemma split_by_pieces_free p s :
  Forall (fun w => free_of p w = true) (split_by p s).
Proof.
  induction s as [|c s IH]; [by repeat constructor|]. simpl.
  destruct (p c) eqn:E; [by constructor|].
  destruct (split_by p s) as [|w ws]; [by repeat constructor; rewrite free_of_cons, E|].
  apply Forall_cons in IH as [Hw Hws]. constructor; [|done].
  by rewrite free_of_cons, E, Hw.
Qed.

(** Every piece is a contiguous part of the text. *)
Lemma split_by_pieces_infix p s w :
  w ∈ split_by p s -> exists pre post, s = pre +:+ w +:+ post.
Proof.
  revert w. induction s as [|c s IH]; intros w Hw.
  - apply list_elem_of_singleton in Hw as ->. by exists "", "".
  - simpl in Hw. destruct (p c).
    + apply elem_of_cons in Hw as [->|Hw]; [by exists "", (String c s)|].
      destruct (IH w Hw) as (pre & post & ->). by exists (String c pre), post.
    + rewrite (split_by_unfold p s) in Hw, IH.
      apply elem_of_cons in Hw as [->|Hw].
      * destruct (up_to_prefix p s) as [rest Hrest].
        exists "", rest. by rewrite append_nil_l, append_cons, <- Hrest.
      * destruct (IH w) as (pre & post & ->); [by right|].
        by exists (String c pre), post.
Qed.

Lemma free_of_infix q s pre w post :
  s = pre +:+ w +:+ post -> free_of q s = true -> free_of q w = true.
Proof.
  intros ->. rewrite !free_of_append. by intros [_ [H _]%andb_prop]%andb_prop.
Qed.

Lemma getitem_elem_of {A} (l : list A) (i : Z) (x : A) : getitem l i = Ok x -> x ∈ l.
Proof.
  unfold getitem. destruct (_ <? 0)%Z; [done|].
  destruct (l !! _) as [y|] eqn:E; [|done].
  intros [= <-]. by eapply list_elem_of_lookup_2.
Qed.

End pieces.

(** ** What the two extractors return *)

Lemma get_last_path_element_pieces line element :
  _get_last_path_element_from_log line = Ok element ->
  exists request_param file_path,
    request_param ∈ split DQUOTE line
    /\ file_path ∈ split " " request_param
    /\ element ∈ split "/" file_path.
Proof.
  unfold _get_last_path_element_from_log.
  destruct (getitem (split DQUOTE line) 1) as [request_param|] eqn:H1; [|done].
  simpl. destruct (getitem (split " " request_param) 1) as [file_path|] eqn:H2; [|done].
  simpl. intros H3. exists request_param, file_path.
  repeat split; eapply getitem_elem_of; eassumption.
Qed.

Lemma infix_trans s pre w post pre' v post' :
  s = pre +:+ w +:+ post -> w = pre' +:+ v +:+ post' ->
  s = (pre +:+ pre') +:+ v +:+ (post' +:+ post).
Proof. intros -> ->. by rewrite !append_assoc. Qed.

Lemma last_path_element_is_a_clean_piece_parts line element :
  _get_last_path_element_from_log line = Ok element ->
  free_of (Ascii.eqb "/") element = true
  /\ free_of (Ascii.eqb " ") element = true
  /\ free_of (Ascii.eqb DQUOTE) element = true.
Proof.
  intros (request_param & file_path & H1 & H2 & H3)%get_last_path_element_pieces.
  pose proof (split_by_pieces_free (Ascii.eqb DQUOTE) line) as F1.
  pose proof (split_by_pieces_free (Ascii.eqb " ") request_param) as F2.
  pose proof (split_by_pieces_free (Ascii.eqb "/") file_path) as F3.
  rewrite Forall_forall in F1, F2, F3.
  specialize (F1 _ H1). specialize (F2 _ H2). specialize (F3 _ H3).
  apply split_by_pieces_infix in H2 as (pre2 & post2 & E2).
  apply split_by_pieces_infix in H3 as (pre3 & post3 & E3).
  pose proof (infix_trans _ _ _ _ _ _ _ E2 E3) as E23.
  split; [done|split].
  - by apply (free_of_infix _ _ _ _ _ E3).
  - apply (free_of_infix _ _ _ _ _ E23). by simpl in F1.
Qed.

Lemma last_path_element_infix line element :
  _get_last_path_element_from_log line = Ok element ->
  exists pre post, line = pre +:+ element +:+ post.
Proof.
  intros (request_param & file_path & H1 & H2 & H3)%get_last_path_element_pieces.
  apply split_by_pieces_infix in H1 as (pre1 & post1 & E1).
  apply split_by_pieces_infix in H2 as (pre2 & post2 & E2).
  apply split_by_pieces_infix in H3 as (pre3 & post3 & E3).
  pose proof (infix_trans _ _ _ _ _ _ _ E2 E3) as E23.
  eexists _, _. by apply (infix_trans _ _ _ _ _ _ _ E1 E23).
Qed.

Lemma response_code_parts line code :
  _get_response_code_from_log line = Ok code ->
  free_of (Ascii.eqb " ") code = true
  /\ exists pre post, line = pre +:+ code +:+ post.
Proof.
  intros Hin%getitem_elem_of. split.
  - pose proof (split_by_pieces_free (Ascii.eqb " ") line) as F.
    rewrite Forall_forall in F. by apply F.
  - by apply split_by_pieces_infix in Hin.
Qed.

(** X1: the last path element the function returns is a contiguous part
    of the line and holds no slash, no space and no double quote. *)
Theorem last_path_element_is_a_clean_piece_of_the_line (line element : string) :
  _get_last_path_element_from_log line = Ok element ->
  (exists pre post, line = pre +:+ element +:+ post)
  /\ free_of (Ascii.eqb "/") element = true
  /\ free_of (Ascii.eqb " ") element = true
  /\ free_of (Ascii.eqb DQUOTE) element = true.
Proof.
  intros He. split.
  - by apply last_path_element_infix.
  - by apply (last_path_element_is_a_clean_piece_parts line).
Qed.

Lemma last_path_element_is_a_clean_piece_of_the_line_witness :
  (exists pre post, liftoff_line = pre +:+ "liftoff.html" +:+ post)
  /\ free_of (Ascii.eqb "/") "liftoff.html" = true
  /\ free_of (Ascii.eqb " ") "liftoff.html" = true
  /\ free_of (Ascii.eqb DQUOTE) "liftoff.html" = true.
Proof.
  apply (last_path_element_is_a_clean_piece_of_the_line liftoff_line "liftoff.html").
  reflexivity.
Defined.

(** X2: the function that extracts the response code never raises. What
    it returns is a contiguous part of the line without a space, and for a
    line without any space it is the line itself: the index len - 2 is
    then -1, the last element. *)
Theorem response_code_is_always_returned (line : string) :
  exists code,
    _get_response_code_from_log line = Ok code
    /\ free_of (Ascii.eqb " ") code = true
    /\ (exists pre post, line = pre +:+ code +:+ post)
    /\ (free_of (Ascii.eqb " ") line = true -> code = line).
Proof.
  destruct (get_response_code_total line) as [code Hcode]. exists code.
  split; [done|].
  destruct (response_code_parts line code Hcode) as [Hfree Hinfix].
  split; [done|split; [done|]].
  intros Hline. unfold _get_response_code_from_log, split in Hcode.
  rewrite split_by_free in Hcode by done. by injection Hcode.
Qed.

Lemma response_code_is_always_returned_witness :
  free_of (Ascii.eqb " ") "no-space-at-all" = true
  /\ _get_response_code_from_log "no-space-at-all" = Ok "no-space-at-all".
Proof.
  split; [reflexivity|].
  destruct (response_code_is_always_returned "no-space-at-all")
    as (code & Hcode & _ & _ & Hline).
  rewrite <- (Hline eq_refl) at 2. exact Hcode.
Defined.

(** ** Filters that select nothing *)

Lemma free_of_lower q s :
  (forall c, q (lower_char c) = q c) -> free_of q (lower s) = free_of q s.
Proof.
  intros Hq. induction s as [|c s IH]; [done|].
  simpl. by rewrite Hq, IH.
Qed.

Lemma lower_char_slash c : Ascii.eqb "/" (lower_char c) = Ascii.eqb "/" c.
Proof. by destruct c as [[] [] [] [] [] [] [] []]. Qed.

Lemma lower_char_space c : Ascii.eqb " " (lower_char c) = Ascii.eqb " " c.
Proof. by destruct c as [[] [] [] [] [] [] [] []]. Qed.

Lemma lower_char_quote c : Ascii.eqb DQUOTE (lower_char c) = Ascii.eqb DQUOTE c.
Proof. by destruct c as [[] [] [] [] [] [] [] []]. Qed.

Lemma passing_extension_filter_free q self element :
  (forall c, q (lower_char c) = q c) ->
  free_of q element = true ->
  truthy (_last_path_element_passes_extension_filter self element) = true ->
  free_of q (_extension_filter self) = true.
Proof.
  intros Hq Hfree. unfold _last_path_element_passes_extension_filter.
  destruct (endswith _ _) eqn:E; [|done]. intros _.
  apply endswith_iff in E as [u Hu].
  rewrite <- (free_of_lower q) in Hfree by done.
  rewrite Hu, free_of_append in Hfree. by apply andb_prop in Hfree as [_ ?].
Qed.

Lemma for_line_in_writes_nothing self lines written :
  (forall line element code,
     _get_last_path_element_from_log line = Ok element ->
     _get_response_code_from_log line = Ok code ->
     truthy (_last_path_element_passes_extension_filter self element)
     && _response_code_passes_filter self code = false) ->
  fst (for_line_in self lines written) = written.
Proof.
  intros Hnone. revert written.
  induction lines as [|line lines IH]; intros written; [done|].
  simpl. unfold loop_body.
  destruct (_get_last_path_element_from_log line) as [element|] eqn:He; [|done].
  destruct (_get_response_code_from_log line) as [code|] eqn:Hc.
  - specialize (Hnone line element code He Hc).
    destruct (truthy _); [|by apply IH]. simpl in Hnone. rewrite Hnone. by apply IH.
  - by destruct (truthy _); [|apply IH].
Qed.

(** X3: filters that select nothing. The extracted response code holds no
    space and the extracted path element no space, slash or double quote,
    and the element is lower-cased before the comparison; so with a code
    filter that holds a space, or an extension filter that holds a space,
    a slash, a double quote or an upper-case letter, the run leaves an
    empty output file, whatever the source holds. *)
Theorem filter_that_cannot_match_empties_the_output
    (filename extension_filter response_code_filter : string)
    (fs : gmap string string) (content : string) :
  fs !! filename = Some content ->
  free_of (Ascii.eqb " ") response_code_filter = false
  \/ free_of (Ascii.eqb " ") extension_filter = false
  \/ free_of (Ascii.eqb "/") extension_filter = false
  \/ free_of (Ascii.eqb DQUOTE) extension_filter = false
  \/ lower extension_filter <> extension_filter ->
  fst (create_new_file_with_filtered_elements
         (__init__ filename extension_filter response_code_filter) fs)
  = <["gifs_" +:+ filename := ""]> fs.
Proof.
  intros Hfile Hfilter.
  set (self := __init__ filename extension_filter response_code_filter).
  unfold create_new_file_with_filtered_elements. fold self.
  change (_filename self) with filename. rewrite Hfile.
  pose proof (for_line_in_writes_nothing self (readlines content) "") as Hloop.
  destruct (for_line_in _ _ _) as [written outcome]. simpl in *.
  rewrite Hloop; [done|]. clear Hloop.
  intros line element code He Hc.
  destruct (truthy _) eqn:Hpass; [|done]. simpl.
  destruct (last_path_element_is_a_clean_piece_parts line element He)
    as (Hslash & Hspace & Hquote).
  destruct Hfilter as [Hcode|[Hext|[Hext|[Hext|Hext]]]].
  - unfold _response_code_passes_filter. simpl.
    destruct (String.eqb_spec code response_code_filter) as [->|]; [|done].
    destruct (response_code_parts line response_code_filter Hc) as [Hfree _].
    congruence.
  - apply (passing_extension_filter_free _ _ _ lower_char_space Hspace) in Hpass.
    simpl in Hpass. congruence.
  - apply (passing_extension_filter_free _ _ _ lower_char_slash Hslash) in Hpass.
    simpl in Hpass. congruence.
  - apply (passing_extension_filter_free _ _ _ lower_char_quote Hquote) in Hpass.
    simpl in Hpass. congruence.
  - unfold _last_path_element_passes_extension_filter in Hpass. simpl in Hpass.
    destruct (endswith _ _) eqn:E; [|done].
    apply endswith_iff in E as [u Hu]. by apply lower_suffix in Hu.
Qed.

Lemma filter_that_cannot_match_empties_the_output_witness :
  fst (create_new_file_with_filtered_elements
         (__init__ "sample_test_input_file.txt" ".gif" "200 ")
         {[ "sample_test_input_file.txt" := sample_test_input_file ]})
  = <["gifs_sample_test_input_file.txt" := ""]>
      {[ "sample_test_input_file.txt" := sample_test_input_file ]}.
Proof.
  apply (filter_that_cannot_match_empties_the_output
           "sample_test_input_file.txt" ".gif" "200 " _ sample_test_input_file).
  - apply lookup_singleton_eq.
  - by left.
Defined.

(** ** The run and the files *)

Lemma run_ignores_old_output (self : ResponseFilter.t)
    (fs : gmap string string) (old content : string) :
  filtered_elements_filename self <> _filename self ->
  fs !! _filename self = Some content ->
  create_new_file_with_filtered_elements self
    (<[filtered_elements_filename self := old]> fs)
  = create_new_file_with_filtered_elements self fs.
Proof.
  intros Hne Hfile. unfold create_new_file_with_filtered_elements.
  rewrite lookup_insert_ne, Hfile by done.
  destruct (for_line_in _ _ _) as [written outcome].
  by rewrite insert_insert_eq.
Qed.

Lemma run_result (self : ResponseFilter.t) (fs : gmap string string) content :
  fs !! _filename self = Some content ->
  create_new_file_with_filtered_elements self fs
  = (<[filtered_elements_filename self :=
         fst (for_line_in self (readlines content) "")]> fs,
     snd (for_line_in self (readlines content) "")).
Proof.
  intros Hfile. unfold create_new_file_with_filtered_elements. rewrite Hfile.
  by destruct (for_line_in _ _ _).
Qed.

(** X4: the run reads the source only and overwrites its output. What the
    output file held before does not matter when the source exists, and
    running the filter a second time changes nothing and ends as the first
    run did. *)
Theorem filtering_run_can_be_repeated
    (filename extension_filter response_code_filter : string)
    (fs : gmap string string) (old : string) :
  let self := __init__ filename extension_filter response_code_filter in
  (is_Some (fs !! filename) ->
   create_new_file_with_filtered_elements self (<["gifs_" +:+ filename := old]> fs)
   = create_new_file_with_filtered_elements self fs)
  /\ create_new_file_with_filtered_elements self
       (fst (create_new_file_with_filtered_elements self fs))
     = create_new_file_with_filtered_elements self fs.
Proof.
  intros self.
  assert (filtered_elements_filename self <> _filename self) as Hne
    by apply output_name_differs.
  split.
  - intros [content Hfile]. by apply (run_ignores_old_output self fs old content).
  - destruct (fs !! filename) as [content|] eqn:Hfile.
    + rewrite (run_result self fs content Hfile) at 1. simpl fst.
      by apply (run_ignores_old_output self fs _ content).
    + unfold create_new_file_with_filtered_elements at 2.
      change (_filename self) with filename. by rewrite Hfile.
Qed.

Lemma filtering_run_can_be_repeated_witness :
  is_Some (({[ "access.log" := broken_log ]} : gmap string string) !! "access.log")
  /\ create_new_file_with_filtered_elements (__init__ "access.log" ".gif" "200")
       (<["gifs_access.log" := "stale"]> {[ "access.log" := broken_log ]})
     = create_new_file_with_filtered_elements (__init__ "access.log" ".gif" "200")
         {[ "access.log" := broken_log ]}.
Proof.
  assert (is_Some (({[ "access.log" := broken_log ]} : gmap string string)
                     !! "access.log")) as H
    by (rewrite lookup_singleton_eq; by eexists).
  split; [exact H|].
  exact (proj1 (filtering_run_can_be_repeated "access.log" ".gif" "200"
                  {[ "access.log" := broken_log ]} "stale") H).
Defined.

(** ** The lines of the output file *)

Section last_character.
Implicit Types (s t u : string) (c d : ascii).

Lemma snoc_cases s : s = "" \/ exists s' c, s = s' +:+ String c "".
Proof.
  induction s as [|a s [->|(s' & c & ->)]]; [by left|right..].
  - by exists "", a.
  - by exists (String a s'), c.
Qed.

Lemma append_snoc_inj s t c d :
  s +:+ String c "" = t +:+ String d "" -> s = t /\ c = d.
Proof.
  revert t. induction s as [|a s IH]; intros [|b t]; rewrite ?append_cons, ?append_nil_l.
  - by intros [= ->].
  - intros [= -> H]. symmetry in H. by apply append_eq_nil in H as [_ ?].
  - intros [= -> H]. by apply append_eq_nil in H as [_ ?].
  - intros [= -> H]. apply IH in H as [-> ->]. done.
Qed.

Lemma lower_char_LF c : Ascii.eqb LF (lower_char c) = Ascii.eqb LF c.
Proof. by destruct c as [[] [] [] [] [] [] [] []]. Qed.

Lemma lower_char_CR c : Ascii.eqb CR (lower_char c) = Ascii.eqb CR c.
Proof. by destruct c as [[] [] [] [] [] [] [] []]. Qed.

(** A text that is empty or ends with a newline has complete lines only. *)
Lemma lines_of_text_ending_in_newline s :
  s = "" \/ (exists u, s = u +:+ nl) -> Forall complete_line (lines_of_text s).
Proof.
  intros Hs. pose proof (join_lines_of_text s) as Hjoin.
  destruct (lines_of_text_shape s) as (ls & last & Hlines & Hls & Hlast).
  rewrite Hlines in Hjoin |- *.
  destruct Hlast as [->|(x & -> & Hne & Hx)]; [by rewrite app_nil_r|].
  exfalso. rewrite join_app in Hjoin. simpl in Hjoin. rewrite append_nil_r in Hjoin.
  destruct (snoc_cases x) as [->|(x' & c & ->)]; [done|].
  apply free_of_snoc in Hx.
  destruct Hs as [->|[u ->]].
  - apply append_eq_nil in Hjoin as [_ H]. by apply append_eq_nil in H as [_ ?].
  - rewrite <- append_assoc in Hjoin. apply append_snoc_inj in Hjoin as [_ ->].
    by rewrite Ascii.eqb_refl in Hx.
Qed.

(** In a line of a text a newline can only be the last character. *)
Lemma line_newline_only_last s line :
  line ∈ lines_of_text s ->
  exists b c, line = b +:+ String c "" /\ free_of (Ascii.eqb LF) b = true.
Proof.
  destruct (lines_of_text_shape s) as (ls & last & -> & Hls & Hlast).
  intros [Hin|Hin]%elem_of_app.
  - rewrite Forall_forall in Hls. destruct (Hls _ Hin) as (body & -> & Hbody).
    by exists body, LF.
  - destruct Hlast as [->|(x & -> & Hne & Hx)]; [by apply elem_of_nil in Hin|].
    apply list_elem_of_singleton in Hin as ->.
    destruct (snoc_cases x) as [->|(x' & c & ->)]; [done|].
    exists x', c. split; [done|].
    rewrite free_of_append in Hx. by apply andb_prop in Hx as [? _].
Qed.

Lemma infix_newline_only_last b c pre e d post :
  b +:+ String c "" = pre +:+ (e +:+ String d "") +:+ post ->
  free_of (Ascii.eqb LF) b = true -> free_of (Ascii.eqb LF) e = true.
Proof.
  intros Heq Hb. destruct (snoc_cases post) as [->|(post' & z & ->)].
  - rewrite append_nil_r, <- append_assoc in Heq.
    apply append_snoc_inj in Heq as [-> _].
    rewrite free_of_append in Hb. by apply andb_prop in Hb as [_ ?].
  - rewrite <- !append_assoc in Heq. apply append_snoc_inj in Heq as [-> _].
    rewrite !free_of_append, !andb_true_iff in Hb. tauto.
Qed.

End last_character.

Lemma passing_element_extracted self line element :
  passing_element self line = Some element ->
  _get_last_path_element_from_log line = Ok element
  /\ truthy (_last_path_element_passes_extension_filter self element) = true.
Proof.
  unfold passing_element.
  destruct (_get_last_path_element_from_log line) as [e|]; [|done].
  destruct (_get_response_code_from_log line) as [code|]; [|done].
  destruct (truthy _) eqn:Hpass; [|done]. simpl.
  destruct (_response_code_passes_filter _ _); [|done]. by intros [= <-].
Qed.

(** An element that passes a non-empty filter without newline holds no
    newline, when it comes from a line of a file. *)
Lemma passing_element_no_newline self content line element :
  _extension_filter self <> "" ->
  free_of (Ascii.eqb LF) (_extension_filter self) = true ->
  line ∈ readlines content ->
  passing_element self line = Some element ->
  free_of (Ascii.eqb LF) element = true.
Proof.
  intros Hne Hext Hline [He Hpass]%passing_element_extracted.
  unfold _last_path_element_passes_extension_filter in Hpass.
  destruct (endswith _ _) eqn:E; [clear Hpass|done].
  apply endswith_iff in E as [u Hu].
  destruct (snoc_cases (_extension_filter self)) as [?|(x & z & Hx)]; [done|].
  rewrite Hx in Hext, Hu. apply free_of_snoc in Hext.
  destruct (snoc_cases element) as [->|(e & d & ->)]; [done|].
  rewrite lower_append, <- append_assoc in Hu. simpl in Hu.
  apply append_snoc_inj in Hu as [_ Hd].
  apply line_newline_only_last in Hline as (b & c & Hb & Hfree).
  apply last_path_element_infix in He as (pre & post & Hinfix).
  rewrite Hb in Hinfix.
  rewrite free_of_append, (infix_newline_only_last _ _ _ _ _ _ Hinfix Hfree).
  rewrite free_of_cons, <- lower_char_LF, Hd, Hext. done.
Qed.

Lemma passing_element_no_CR self content line element :
  line ∈ readlines content ->
  passing_element self line = Some element ->
  free_of (Ascii.eqb CR) element = true.
Proof.
  intros Hline [He _]%passing_element_extracted.
  apply last_path_element_infix in He as (pre & post & Hinfix).
  eapply free_of_infix; [exact Hinfix|].
  pose proof (readlines_no_CR content) as H. rewrite Forall_forall in H. by apply H.
Qed.

Lemma omap_length_le {A B} (f : A -> option B) (l : list A) :
  length (omap f l) <= length l.
Proof.
  induction l as [|x l IH]; [done|]. cbn [omap list_omap].
  destruct (f x); simpl; lia.
Qed.

Lemma join_cons (line : string) (lines : list string) :
  join (line :: lines) = line +:+ join lines.
Proof. reflexivity. Qed.

Lemma join_newline_ended (elements : list string) :
  join ((fun element => element +:+ nl) <$> elements) = ""
  \/ exists u, join ((fun element => element +:+ nl) <$> elements) = u +:+ nl.
Proof.
  induction elements as [|e es IH]; [by left|]. right.
  rewrite fmap_cons, join_cons. destruct IH as [->|[u ->]].
  - exists e. by rewrite append_nil_r.
  - exists ((e +:+ nl) +:+ u). symmetry. apply append_assoc.
Qed.

(** The lines the loop got through before it ended. *)
Lemma for_line_in_processed self lines written :
  exists processed rest,
    lines = (processed ++ rest)%list
    /\ Forall (fun line => malformed line = false) processed
    /\ fst (for_line_in self lines written) = written +:+ filtered_output self processed.
Proof.
  destruct (decide (Forall (fun line => malformed line = false) lines)) as [Hall|Hnot].
  - exists lines, []. rewrite app_nil_r, for_line_in_well_formed by done. done.
  - apply not_Forall_Exists in Hnot; [|apply _].
    assert (Exists (fun line => malformed line = true) lines) as Hex.
    { eapply Exists_impl; [exact Hnot|]. intros line H. simpl in H.
      by destruct (malformed line). }
    apply first_malformed in Hex as (good & bad & rest & -> & Hgood & Hbad).
    exists good, (bad :: rest). by rewrite for_line_in_malformed.
Qed.

Lemma filtered_output_no_CR self content processed rest :
  readlines content = (processed ++ rest)%list ->
  free_of (Ascii.eqb CR) (filtered_output self processed) = true.
Proof.
  intros Hlines. apply free_of_join, Forall_forall.
  intros l (e & -> & (line & Hline & He)%list_elem_of_omap)%list_elem_of_fmap.
  rewrite free_of_append, andb_true_r.
  apply (passing_element_no_CR self content line); [|done].
  rewrite Hlines. apply elem_of_app. by left.
Qed.

(** X6: whatever the source holds, the output file is empty or ends with a
    newline after the run, also after a run that raised: every line of the
    output file is terminated, as [remove_duplicates] needs it. *)
Theorem output_file_ends_with_a_newline
    (filename extension_filter response_code_filter : string)
    (fs : gmap string string) (content : string) :
  let self := __init__ filename extension_filter response_code_filter in
  fs !! filename = Some content ->
  exists written,
    fst (create_new_file_with_filtered_elements self fs) !! ("gifs_" +:+ filename)
    = Some written
    /\ (written = "" \/ exists u, written = u +:+ nl)
    /\ Forall terminated (readlines written).
Proof.
  intros self Hfile. rewrite (run_result self fs content Hfile). simpl fst.
  eexists. split; [apply lookup_insert_eq|].
  destruct (for_line_in_processed self (readlines content) "")
    as (processed & rest & Hlines & _ & ->).
  rewrite append_nil_l. split; [apply join_newline_ended|].
  unfold readlines at 1.
  rewrite universal_newlines_id by by eapply filtered_output_no_CR.
  eapply Forall_impl; [|apply complete_line_terminated].
  apply lines_of_text_ending_in_newline, join_newline_ended.
Qed.

Lemma output_file_ends_with_a_newline_witness :
  exists written,
    fst (create_new_file_with_filtered_elements (__init__ "access.log" ".gif" "200")
           {[ "access.log" := broken_log ]}) !! "gifs_access.log"
    = Some written
    /\ (written = "" \/ exists u, written = u +:+ nl)
    /\ Forall terminated (readlines written).
Proof.
  apply (output_file_ends_with_a_newline "access.log" ".gif" "200"
           {[ "access.log" := broken_log ]} broken_log).
  apply lookup_singleton_eq.
Defined.

Lemma readlines_filtered_output self content processed rest :
  _extension_filter self <> "" ->
  free_of (Ascii.eqb LF) (_extension_filter self) = true ->
  readlines content = (processed ++ rest)%list ->
  readlines (filtered_output self processed)
  = (fun element => element +:+ nl) <$> omap (passing_element self) processed.
Proof.
  intros Hne Hext Hlines. unfold filtered_output.
  rewrite <- (app_nil_r (_ <$> _)).
  assert (forall l, l ∈ (fun element => element +:+ nl) <$> omap (passing_element self) processed ->
            exists e line, l = e +:+ nl /\ line ∈ readlines content
                           /\ passing_element self line = Some e) as Hin.
  { intros l (e & -> & (line & Hline & He)%list_elem_of_omap)%list_elem_of_fmap.
    exists e, line. split; [done|]. split; [|done].
    rewrite Hlines. apply elem_of_app. by left. }
  apply readlines_join; [| |by left].
  - apply Forall_forall. intros l (e & line & -> & Hline & He)%Hin.
    exists e. split; [done|]. by eapply passing_element_no_newline.
  - rewrite app_nil_r. apply Forall_forall.
    intros l (e & line & -> & Hline & He)%Hin.
    rewrite free_of_append, andb_true_r. by eapply passing_element_no_CR.
Qed.

(** X7: with an extension filter that is not empty and holds no newline,
    reading back the output of a run over well-formed lines gives the
    passing elements, one line each: the output has as many lines as the
    source has passing lines, never more lines than the source. *)
Theorem output_lines_are_the_passing_elements
    (filename extension_filter response_code_filter : string)
    (fs : gmap string string) (content : string) :
  let self := __init__ filename extension_filter response_code_filter in
  extension_filter <> "" ->
  free_of (Ascii.eqb LF) extension_filter = true ->
  fs !! filename = Some content ->
  Forall (fun line => malformed line = false) (readlines content) ->
  exists written,
    create_new_file_with_filtered_elements self fs
    = (<["gifs_" +:+ filename := written]> fs, Ok ())
    /\ readlines written
       = (fun element => element +:+ nl) <$> omap (passing_element self) (readlines content)
    /\ length (readlines written) <= length (readlines content).
Proof.
  intros self Hne Hext Hfile Hlines.
  exists (filtered_output self (readlines content)).
  split; [by apply (run_on_well_formed_lines self fs content)|].
  assert (readlines (filtered_output self (readlines content))
          = (fun element => element +:+ nl) <$>
              omap (passing_element self) (readlines content)) as ->.
  { apply (readlines_filtered_output self content _ []); [done..|].
    by rewrite app_nil_r. }
  split; [done|]. rewrite length_fmap. apply omap_length_le.
Qed.

Lemma output_lines_are_the_passing_elements_witness :
  exists written,
    create_new_file_with_filtered_elements res_filter
      {[ "sample_test_input_file.txt" := sample_test_input_file ]}
    = (<["gifs_sample_test_input_file.txt" := written]>
         {[ "sample_test_input_file.txt" := sample_test_input_file ]}, Ok ())
    /\ readlines written
       = (fun element => element +:+ nl) <$>
           omap (passing_element res_filter) (readlines sample_test_input_file)
    /\ length (readlines written) <= length (readlines sample_test_input_file).
Proof.
  apply (output_lines_are_the_passing_elements
           "sample_test_input_file.txt" ".gif" "200"
           {[ "sample_test_input_file.txt" := sample_test_input_file ]}
           sample_test_input_file).
  - discriminate.
  - reflexivity.
  - apply lookup_singleton_eq.
  - apply all_well_formed. vm_compute. reflexivity.
Defined.

(** ** Filtering, then removing duplicates *)

(** X8: the two operations in sequence, the second on the output file of
    the first. With an
    extension filter that is not empty and holds no newline, and a source
    of well-formed lines, removing the duplicates of the run's output file
    leaves a file whose lines are distinct and are the passing elements,
    each followed by its newline, whatever the iteration order of the set;
    the source file is as it was. *)
Theorem filtering_then_removing_duplicates
    (order : gset string -> list string)
    (filename extension_filter response_code_filter : string)
    (fs : gmap string string) (content : string) :
  let self := __init__ filename extension_filter response_code_filter in
  let output := filtered_elements_filename self in
  set_iteration order ->
  extension_filter <> "" ->
  free_of (Ascii.eqb LF) extension_filter = true ->
  fs !! filename = Some content ->
  Forall (fun line => malformed line = false) (readlines content) ->
  exists final,
    remove_duplicates order output
      (fst (create_new_file_with_filtered_elements self fs))
    = (<[output := final]> fs, Ok ())
    /\ NoDup (readlines final)
    /\ (forall l, l ∈ readlines final <->
          exists line element,
            line ∈ readlines content
            /\ passing_element self line = Some element
            /\ l = element +:+ nl)
    /\ <[output := final]> fs !! filename = Some content.
Proof.
  intros self output Horder Hne Hext Hfile Hlines.
  rewrite (run_on_well_formed_lines self fs content Hfile Hlines). simpl fst.
  fold output. set (written := filtered_output self (readlines content)).
  assert (readlines written
          = (fun element => element +:+ nl) <$>
              omap (passing_element self) (readlines content)) as Hwritten.
  { apply (readlines_filtered_output self content _ []); [done..|].
    by rewrite app_nil_r. }
  assert (Forall terminated (readlines written)) as Hterm.
  { rewrite Hwritten. apply Forall_forall.
    intros l (e & -> & _)%list_elem_of_fmap. apply endswith_iff. by exists e. }
  exists (join (order (list_to_set (readlines written)))).
  split.
  { rewrite (remove_duplicates_writes order output _ written)
      by apply lookup_insert_eq.
    by rewrite insert_insert_eq. }
  rewrite readlines_rewritten by done.
  split; [by apply written_NoDup|]. split.
  - intros l. rewrite written_iff by done. rewrite Hwritten, list_elem_of_fmap.
    split.
    + intros (e & -> & (line & Hline & He)%list_elem_of_omap). by exists line, e.
    + intros (line & e & Hline & He & ->). exists e. split; [done|].
      apply list_elem_of_omap. by exists line.
  - rewrite lookup_insert_ne; [done|]. apply output_name_differs.
Qed.

Lemma filtering_then_removing_duplicates_witness :
  exists final,
    remove_duplicates descending "gifs_sample_test_input_file.txt"
      (fst (create_new_file_with_filtered_elements res_filter
              {[ "sample_test_input_file.txt" := sample_test_input_file ]}))
    = (<["gifs_sample_test_input_file.txt" := final]>
         {[ "sample_test_input_file.txt" := sample_test_input_file ]}, Ok ())
    /\ NoDup (readlines final)
    /\ (forall l, l ∈ readlines final <->
          exists line element,
            line ∈ readlines sample_test_input_file
            /\ passing_element res_filter line = Some element
            /\ l = element +:+ nl)
    /\ (<["gifs_sample_test_input_file.txt" := final]>
          {[ "sample_test_input_file.txt" := sample_test_input_file ]}
          : gmap string string) !! "sample_test_input_file.txt"
       = Some sample_test_input_file.
Proof.
  apply (filtering_then_removing_duplicates descending
           "sample_test_input_file.txt" ".gif" "200"
           {[ "sample_test_input_file.txt" := sample_test_input_file ]}
           sample_test_input_file).
  - apply descending_iteration.
  - discriminate.
  - reflexivity.
  - apply lookup_singleton_eq.
  - apply all_well_formed. vm_compute. reflexivity.
Defined.

(** The sample of the module's tests through both operations: its nine
    passing elements become five lines. *)
Example sample_filtered_and_deduplicated :
  fst (remove_duplicates ascending "gifs_sample_test_input_file.txt"
         (fst (create_new_file_with_filtered_elements res_filter
                 {[ "sample_test_input_file.txt" := sample_test_input_file ]})))
    !! "gifs_sample_test_input_file.txt"
  = Some (join ((fun element => element +:+ nl) <$>
            ["KSC-logosmall.gif"; "NASA-logosmall.gif"; "count.gif";
             "livevideo.GIF"; "smogo.gif"])).
Proof. vm_compute. reflexivity. Qed.

(** ** More on removing duplicates *)

Section lengths.
Implicit Types (s t : string) (l : list string).

Lemma length_append s t : String.length (s +:+ t) = String.length s + String.length t.
Proof.
  induction s as [|c s IH]; [done|]. rewrite append_cons. simpl. by rewrite IH.
Qed.

Lemma length_join l : String.length (join l) = sum_list_with String.length l.
Proof.
  induction l as [|s l IH]; [done|]. rewrite join_cons, length_append, IH. done.
Qed.

Lemma length_universal_newlines s :
  String.length (universal_newlines s) <= String.length s.
Proof.
  induction s as [|c s IH]; [done|]. rewrite universal_newlines_cons.
  destruct (Ascii.eqb c CR).
  - destruct s as [|c' s]; [done|]. destruct (Ascii.eqb c' LF); simpl in *; lia.
  - simpl. lia.
Qed.

Lemma sum_of_distinct_lines (written l : list string) :
  NoDup written -> (forall x, x ∈ written -> x ∈ l) ->
  sum_list_with String.length written <= sum_list_with String.length l.
Proof.
  intros Hnodup Hsub.
  destruct (submseteq_Permutation written l) as [k Hk]; [by apply NoDup_submseteq|].
  rewrite Hk, sum_list_with_app. lia.
Qed.

End lengths.

(** X10: [remove_duplicates] never makes the file longer: the rewritten
    text has at most as many characters as the file held, whatever the
    iteration order and whether or not the last line has its newline. *)
Theorem remove_duplicates_never_grows_the_file
    (order : gset string -> list string) (filename : string)
    (fs : gmap string string) (content : string) :
  set_iteration order ->
  fs !! filename = Some content ->
  exists content',
    remove_duplicates order filename fs = (<[filename := content']> fs, Ok ())
    /\ String.length content' <= String.length content.
Proof.
  intros Horder Hfile. eexists. split; [by apply remove_duplicates_writes|].
  rewrite length_join.
  etrans; [|apply (length_universal_newlines content)].
  rewrite <- (join_lines_of_text (universal_newlines content)), length_join.
  apply sum_of_distinct_lines; [by apply written_NoDup|].
  intros x. by apply written_iff.
Qed.

Lemma remove_duplicates_never_grows_the_file_witness :
  exists content',
    remove_duplicates descending "test_file.txt"
      {[ "test_file.txt" := "A" +:+ nl +:+ "B" ]}
    = (<["test_file.txt" := content']> {[ "test_file.txt" := "A" +:+ nl +:+ "B" ]},
       Ok ())
    /\ String.length content' <= String.length ("A" +:+ nl +:+ "B").
Proof.
  apply (remove_duplicates_never_grows_the_file descending "test_file.txt"
           {[ "test_file.txt" := "A" +:+ nl +:+ "B" ]}).
  - apply descending_iteration.
  - apply lookup_singleton_eq.
Defined.

(** X11: a file with at most one line has nothing to reorder: whatever the
    iteration order, [remove_duplicates] writes back the text as it was
    read, and an empty file stays empty. *)
Theorem remove_duplicates_of_at_most_one_line
    (order : gset string -> list string) (filename : string)
    (fs : gmap string string) (content : string) :
  set_iteration order ->
  fs !! filename = Some content ->
  length (readlines content) <= 1 ->
  remove_duplicates order filename fs
  = (<[filename := universal_newlines content]> fs, Ok ()).
Proof.
  intros Horder Hfile Hlen.
  rewrite (remove_duplicates_writes order filename fs content Hfile).
  rewrite <- (join_lines_of_text (universal_newlines content)).
  fold (readlines content). do 3 f_equal.
  destruct (readlines content) as [|line [|line' lines]]; [| |simpl in Hlen; lia].
  - apply Permutation_nil_r. rewrite (Horder _). simpl. by rewrite elements_empty.
  - apply Permutation_singleton_r. rewrite (Horder _). simpl.
    by rewrite (right_id_L ∅ (∪)), elements_singleton.
Qed.

Lemma remove_duplicates_of_at_most_one_line_witness :
  remove_duplicates descending "test_file.txt" {[ "test_file.txt" := "count.gif" ]}
  = (<["test_file.txt" := universal_newlines "count.gif"]>
       {[ "test_file.txt" := "count.gif" ]}, Ok ()).
Proof.
  apply (remove_duplicates_of_at_most_one_line descending "test_file.txt"
           {[ "test_file.txt" := "count.gif" ]} "count.gif").
  - apply descending_iteration.
  - apply lookup_singleton_eq.
  - vm_compute. lia.
Defined.

(** ** The names of the files *)

(** X12: the output name is the source name with the prefix held in
    [_filtered_elements_filename_start] in front; it is never the source
    name, and filters for different sources write different files. *)
Theorem output_names_do_not_clash
    (filename filename' extension_filter response_code_filter
       extension_filter' response_code_filter' : string) :
  let self := __init__ filename extension_filter response_code_filter in
  let self' := __init__ filename' extension_filter' response_code_filter' in
  filtered_elements_filename self
  = _filtered_elements_filename_start self +:+ _filename self
  /\ filtered_elements_filename self <> _filename self
  /\ (filtered_elements_filename self = filtered_elements_filename self' ->
      filename = filename').
Proof.
  intros self self'. split; [done|]. split; [apply output_name_differs|].
  simpl. apply (inj (String.app "gifs_")).
Qed.

Lemma output_names_do_not_clash_witness :
  filtered_elements_filename (__init__ "a.log" ".gif" "200")
  = filtered_elements_filename (__init__ "a.log" ".png" "404")
  /\ "a.log" = "a.log".
Proof.
  split; [reflexivity|].
  exact (proj2 (proj2 (output_names_do_not_clash
                         "a.log" "a.log" ".gif" "200" ".png" "404")) eq_refl).
Defined.

(** ** A log made of two logs *)

Section appended_texts.
Implicit Types (s t u : string) (c : ascii).

Lemma for_line_in_app self lines1 lines2 written :
  Forall (fun line => malformed line = false) lines1 ->
  for_line_in self (lines1 ++ lines2) written
  = for_line_in self lines2 (written +:+ filtered_output self lines1).
Proof.
  intros H. revert written.
  induction H as [|line lines Hline _ IH]; intros written.
  - by rewrite append_nil_r.
  - simpl. rewrite loop_body_well_formed by done. rewrite IH.
    by rewrite (filtered_output_cons self line lines), append_assoc.
Qed.

Lemma for_line_in_from self lines written :
  for_line_in self lines written
  = (written +:+ fst (for_line_in self lines ""), snd (for_line_in self lines "")).
Proof.
  revert written. induction lines as [|line lines IH]; intros written.
  - by rewrite append_nil_r.
  - simpl. destruct (malformed line) eqn:E.
    + rewrite !loop_body_malformed by done. by rewrite append_nil_r.
    + rewrite !loop_body_well_formed by done.
      rewrite (IH (written +:+ _)), (IH ("" +:+ _)). simpl.
      by rewrite append_nil_l, append_assoc.
Qed.

(** Universal newlines work on each part of a text whose first part ends
    with a newline. *)
Lemma universal_newlines_app u t :
  universal_newlines ((u +:+ nl) +:+ t)
  = universal_newlines (u +:+ nl) +:+ universal_newlines t.
Proof.
  induction u as [|c u IH].
  - reflexivity.
  - rewrite !append_cons, !universal_newlines_cons.
    destruct (Ascii.eqb c CR).
    + destruct u as [|c' u].
      * reflexivity.
      * rewrite !append_cons in *. destruct (Ascii.eqb c' LF); [done|].
        by rewrite IH.
    + by rewrite IH.
Qed.

Lemma universal_newlines_newline_ended u :
  exists v, universal_newlines (u +:+ nl) = v +:+ nl.
Proof.
  induction u as [|c u [v IH]].
  - by exists "".
  - rewrite append_cons, universal_newlines_cons.
    destruct (Ascii.eqb c CR).
    + destruct u as [|c' u].
      * by exists "".
      * rewrite append_cons in *. destruct (Ascii.eqb c' LF); [by exists v|].
        exists (String LF v). by rewrite IH.
    + exists (String c v). by rewrite IH.
Qed.

Lemma readlines_app u t :
  readlines ((u +:+ nl) +:+ t) = (readlines (u +:+ nl) ++ readlines t)%list.
Proof.
  unfold readlines. rewrite universal_newlines_app.
  destruct (universal_newlines_newline_ended u) as [v Hv].
  pose proof (lines_of_text_ending_in_newline (universal_newlines (u +:+ nl))) as H.
  rewrite <- (join_lines_of_text (universal_newlines (u +:+ nl))) at 1.
  apply lines_of_text_join, H. right. by exists v.
Qed.

End appended_texts.

(** X13: the run works line by line. For a source made of a first log of
    well-formed lines that ends with a newline, followed by a second log,
    the output is the output for the first log followed by the output for
    the second, and the run ends as the run over the second log does. *)
Theorem filtering_appended_logs
    (filename extension_filter response_code_filter : string)
    (fs : gmap string string) (first second : string) :
  let self := __init__ filename extension_filter response_code_filter in
  let run content :=
    create_new_file_with_filtered_elements self (<[filename := content]> fs) in
  let output content := fst (run content) !! ("gifs_" +:+ filename) in
  Forall (fun line => malformed line = false) (readlines (first +:+ nl)) ->
  exists written1 written2,
    output (first +:+ nl) = Some written1
    /\ output second = Some written2
    /\ output ((first +:+ nl) +:+ second) = Some (written1 +:+ written2)
    /\ snd (run (first +:+ nl)) = Ok ()
    /\ snd (run ((first +:+ nl) +:+ second)) = snd (run second).
Proof.
  intros self run output Hfirst.
  assert (forall content,
            run content
            = (<["gifs_" +:+ filename := fst (for_line_in self (readlines content) "")]>
                 (<[filename := content]> fs),
               snd (for_line_in self (readlines content) ""))) as Hrun.
  { intros content. apply (run_result self). apply lookup_insert_eq. }
  unfold output. rewrite !Hrun. simpl fst. simpl snd.
  rewrite !lookup_insert_eq, readlines_app.
  rewrite (for_line_in_app self _ _ "" Hfirst), append_nil_l.
  rewrite (for_line_in_well_formed self _ "" Hfirst), append_nil_l.
  rewrite (for_line_in_from self (readlines second) (filtered_output _ _)).
  simpl fst. simpl snd. by eexists _, _.
Qed.

Lemma filtering_appended_logs_witness :
  let self := __init__ "access.log" ".gif" "200" in
  let run content :=
    create_new_file_with_filtered_elements self
      (<["access.log" := content]> (∅ : gmap string string)) in
  let output content := fst (run content) !! "gifs_access.log" in
  let first :=
    "d104.aa.net - - [01/Jul/1995:00:00:15 -0400] "
    +:+ quoted "GET /images/smogo.gif HTTP/1.0" +:+ " 200 0" in
  exists written1 written2,
    output (first +:+ nl) = Some written1
    /\ output broken_log = Some written2
    /\ output ((first +:+ nl) +:+ broken_log) = Some (written1 +:+ written2)
    /\ snd (run (first +:+ nl)) = Ok ()
    /\ snd (run ((first +:+ nl) +:+ broken_log)) = snd (run broken_log).
Proof.
  apply (filtering_appended_logs "access.log" ".gif" "200" ∅).
  apply all_well_formed. vm_compute. reflexivity.
Defined.
